(** * browser-test-framework: the runner, its assertions, the sandbox and the
    console protocol read back by the Playwright harness.

    The development follows [src/index.js] (the framework that runs in the
    page) and [src/index.test.js] (the harness that reads the page's console).

    The program:
    - [Module JS]: the JavaScript values the assertions see, a heap of objects
      addressed by reference, each with its own properties, enumerable or
      not, and its prototype, and the operators the source applies to them
      ([===], [typeof], [Object.keys], property read).
    - [Module Assert]: [AssertionError], the generator [diff] and
      [assert.deepEqual].
    - [Module Console], [Module Text]: the console calls of the page; the
      strings the reporter builds.
    - [Module Runner]: [TestRunner] with its methods; the asynchronous
      [runPendingTests] is cut at its [await] into the segments the event loop
      runs, so that several runs can be in flight.
    - [Module Sandbox]: [withSandbox] over a document given by its parent
      relation.
    - [Module Harness]: the text Playwright delivers for a console call, and
      [extractTestResults].
    - [Module Assertions]: [assert.equal] and [assert.ok].
    - [Module UI]: [test.ui] with [makeTestDOM], [findTestTemplate] and
      [cloneTemplateContent].
    - [Module Verdict]: the three checks the harness makes of the extracted
      results.

    What is proved of it: [Module AssertFacts], [Module RunnerFacts],
    [Module SandboxFacts], [Module HarnessFacts]; then [Module DiffFacts] and
    [Module AlikeFacts] (what the differences say, what [deepEqual] accepts),
    [Module ScheduleFacts] (invariants of the runner over every sequence of
    events, a page load), [Module ReportFacts] (the runner's console read
    back by the harness) and [Module UIFacts] (the sandbox and the fixtures
    of UI tests). *)

From Stdlib Require Import Floats.PrimFloat Floats.SpecFloat Floats.FloatAxioms.
From Stdlib Require Import Strings.Ascii Strings.String DecimalString NArith.
From Stdlib Require DecimalNat.
From stdpp Require Import base option list strings gmap.

Open Scope string_scope.
Open Scope list_scope.

(* ===================================================================== *)
(** ** JavaScript values *)
(* ===================================================================== *)

Module JS.

(** References into the heap. Two references are the same object exactly when
    they are the same location. *)
Definition loc := nat.

(** The values that reach [assert.deepEqual]. Numbers are IEEE doubles, as in
    the language; an object value is a reference, and arrays are objects whose
    enumerable keys are their indices and whose [length] is not enumerable.
    Symbols and bigints do not occur in the source and are left out. *)
Inductive value : Type :=
| VUndefined
| VNull
| VBool (b : bool)
| VNumber (n : float)
| VString (s : string)
| VFunction (l : loc)
| VObject (l : loc).

(** Properties by name, each with the value a read of it returns. *)
Definition props := list (string * value).

(** An object, as far as it is read: its own enumerable string-keyed
    properties, in the order [Object.keys] lists them; its own properties
    that are not enumerable (the [length] of an array, the methods of a
    built-in prototype); and its prototype, [None] for [null]. An accessor
    property is given by the value its getter returns for the object read,
    which is taken not to change while the objects are compared: where the
    object owns the accessor the value stands in the place of a data
    property's; where it inherits the accessor the value stands among its
    properties that are not enumerable, as [__proto__], an accessor of
    [Object.prototype], does with every object that inherits it. *)
Record object : Type := mkObject {
  enumerable : props;
  hidden : props;
  prototype : option loc;
}.

(** The heap: the objects by reference. *)
Abbreviation heap := (gmap loc object).

(** [a === b]: no conversion; numbers by IEEE equality, so [NaN] differs from
    itself and [0] equals [-0]; objects and functions by reference. *)
Definition strict_equal (a b : value) : bool :=
  match a, b with
  | VUndefined, VUndefined => true
  | VNull, VNull => true
  | VBool x, VBool y => bool_decide (x = y)
  | VNumber x, VNumber y => PrimFloat.eqb x y
  | VString x, VString y => bool_decide (x = y)
  | VFunction x, VFunction y => bool_decide (x = y)
  | VObject x, VObject y => bool_decide (x = y)
  | _, _ => false
  end.

(** [typeof v]. *)
Definition typeof (v : value) : string :=
  match v with
  | VUndefined => "undefined"
  | VNull => "object"
  | VBool _ => "boolean"
  | VNumber _ => "number"
  | VString _ => "string"
  | VFunction _ => "function"
  | VObject _ => "object"
  end.

(** [v != null]: loose inequality, false for [null] and for [undefined]. *)
Definition not_nullish (v : value) : bool :=
  match v with
  | VUndefined | VNull => false
  | _ => true
  end.

(** The own enumerable properties of the object at [l]. *)
Definition own_props (h : heap) (l : loc) : props :=
  match h !! l with
  | Some o => enumerable o
  | None => []
  end.

(** [Object.keys(v)] for an object [v]. *)
Definition Object_keys (h : heap) (v : value) : list string :=
  match v with
  | VObject l => (own_props h l).*1
  | _ => []
  end.

Fixpoint assoc (key : string) (ps : props) : option value :=
  match ps with
  | [] => None
  | (k, v) :: ps' => if bool_decide (k = key) then Some v else assoc key ps'
  end.

(** The property [key] as a read of the object at [l] finds it: the
    object's own property, enumerable or not, or else the property of the
    nearest object on its chain of prototypes that has one; [None] when no
    object on the chain has a property of that name. [fuel] bounds the
    objects visited. *)
Fixpoint lookup_property (fuel : nat) (h : heap) (l : loc) (key : string)
  : option value :=
  match fuel with
  | O => None
  | S fuel' =>
      match h !! l with
      | None => None
      | Some o =>
          match assoc key (enumerable o) with
          | Some v => Some v
          | None =>
              match assoc key (hidden o) with
              | Some v => Some v
              | None =>
                  match prototype o with
                  | Some p => lookup_property fuel' h p key
                  | None => None
                  end
              end
          end
      end
  end.

(** Whether a read of [key] at [l] finds a property. The language refuses
    to make a chain of prototypes with a cycle, so a chain is no longer than
    the heap has objects. *)
Definition has_property (h : heap) (l : loc) (key : string) : bool :=
  bool_decide (is_Some (lookup_property (S (size h)) h l key)).

(** [v[key]] for an object [v]: the value of the property found, and
    [undefined] when there is none. [diff] reads the keys of objects only. *)
Definition get (h : heap) (v : value) (key : string) : value :=
  match v with
  | VObject l => default VUndefined (lookup_property (S (size h)) h l key)
  | _ => VUndefined
  end.

(** [new Set(keys)] iterated: every key once, at its first position. *)
Fixpoint Set_of (seen keys : list string) : list string :=
  match keys with
  | [] => []
  | k :: keys' =>
      if bool_decide (k ∈ seen) then Set_of seen keys'
      else k :: Set_of (k :: seen) keys'
  end.

End JS.

(* ===================================================================== *)
(** ** Assertions *)
(* ===================================================================== *)

Module Assert.
Import JS.

(** One element yielded by [diff]. *)
Record Difference : Type := mkDifference {
  path : list string;
  actual : value;
  expected : value;
}.

(** [AssertionError]: the message given to [Error] and the details copied
    onto the instance by [Object.assign]; a detail that was not given is not
    a property of the instance. *)
Record AssertionError : Type := mkAssertionError {
  message : string;
  err_actual : option value;
  err_expected : option value;
  differences : option (list Difference);
}.

(** How a call ends. *)
Inductive completion (A E : Type) : Type :=
| Returns (a : A)
| Throws (e : E).
Arguments Returns {A E} a.
Arguments Throws {A E} e.

(** [isObject] of [diff]. *)
Definition isObject (v : value) : bool :=
  not_nullish v && bool_decide (typeof v = "object").

Section DiffKeys.
(** The [for (const key of keys)] loop of [diff], over the recursive call
    [rec]: the differences of every key, in key order. [None] when a
    recursive call produces no result. *)
Variable rec : value -> value -> list string -> option (list Difference).
Variable h : heap.
Variables a b : value.
Variable path : list string.

Fixpoint diff_keys (keys : list string) : option (list Difference) :=
  match keys with
  | [] => Some []
  | key :: keys' =>
      let aValue := get h a key in
      let bValue := get h b key in
      match rec aValue bValue (path ++ [key]) with
      | None => None
      | Some ds =>
          match diff_keys keys' with
          | None => None
          | Some ds' => Some (ds ++ ds')
          end
      end
  end.
End DiffKeys.

(** [function* diff(a, b, path = [])], drained. [depth] bounds the nesting of
    calls: the source recurses without a cycle guard, and [None] stands for a
    traversal that does not come back within [depth] frames (an engine ends
    such a traversal when its stack is exhausted; no list of differences is
    produced then). *)
Fixpoint diff (depth : nat) (h : heap) (a b : value) (path : list string)
  : option (list Difference) :=
  match depth with
  | O => None
  | S depth' =>
      if strict_equal a b then Some []
      else if negb (isObject a) || negb (isObject b) then
        Some [ {| path := path; actual := a; expected := b |} ]
      else
        let keys := Set_of [] (Object_keys h a ++ Object_keys h b) in
        diff_keys (diff depth' h) h a b path keys
  end.

(** [assert.deepEqual(actual, expected)]. *)
Definition deepEqual (depth : nat) (h : heap) (actual expected : value)
  : option (completion unit AssertionError) :=
  match diff depth h actual expected [] with
  | None => None
  | Some differences =>
      if bool_decide (0 < length differences) then
        let message := "Values are not deeply equal" in
        Some (Throws {| message := message;
                        err_actual := Some actual;
                        err_expected := Some expected;
                        differences := Some differences |})
      else Some (Returns tt)
  end.

End Assert.

(* ===================================================================== *)
(** ** The console of the page *)
(* ===================================================================== *)

Module Console.
Import JS Assert.

(** The console methods the framework calls. *)
Inductive method : Type :=
| Log | Info | Error | Debug | Dir | Group | GroupEnd.

(** An argument of a console call: a string, or a value or a list of
    differences handed over for inspection. *)
Inductive arg : Type :=
| Text (s : string)
| Inspect (v : value)
| InspectDifferences (ds : list Difference).

Record call : Type := mkCall {
  meth : method;
  args : list arg;
}.

Definition log (s : string) : call := mkCall Log [Text s].
Definition info (s : string) : call := mkCall Info [Text s].
Definition error (s : string) : call := mkCall Error [Text s].

End Console.

(* ===================================================================== *)
(** ** Text *)
(* ===================================================================== *)

Module Text.

(** The line feed of the source's ["\n"]. *)
Definition nl : string := String "010"%char EmptyString.

(** [`${n}`] for a count. *)
Definition of_nat (n : nat) : string :=
  DecimalString.NilEmpty.string_of_uint (Nat.to_uint n).

Definition of_N (n : N) : string :=
  DecimalString.NilEmpty.string_of_uint (N.to_uint n).

(** [(ms / 1000).toFixed(3)] for a whole number of milliseconds. *)
Definition toFixed3 (ms : N) : string :=
  let frac := (ms mod 1000)%N in
  of_N (ms / 1000)%N +:+ "." +:+ of_N (frac / 100)%N
    +:+ of_N (frac / 10 mod 10)%N +:+ of_N (frac mod 10)%N.

End Text.

(* ===================================================================== *)
(** ** The test runner *)
(* ===================================================================== *)

Module Runner.
Import JS Assert Console Text.

(** What a test body raised, as far as [logSummary] tells values apart: an
    [AssertionError] with its stack; any other value that has properties,
    given by the text [`${error.message}`] renders; or [null] or
    [undefined], of which no property can be read. *)
Inductive thrown : Type :=
| ThrownAssertion (e : AssertionError) (stack : string)
| ThrownOther (message_text : string)
| ThrownNullish.

(** What [await testCase.fn()] comes to. *)
Inductive outcome : Type :=
| Fulfilled
| Rejected (error : thrown).

(** An entry of the queue, [{ name, fn }]. The function is given by the
    outcome of awaiting its call; what else a body does to the page
    (registering tests, letting time pass) is an event of its own below. *)
Record TestCase : Type := mkTestCase {
  name : string;
  fn : outcome;
}.

(** An entry of [testResults]: [{ name, passed: true }] or
    [{ name, passed: false, error }]. *)
Record RunResult : Type := mkRunResult {
  result_name : string;
  result_passed : bool;
  result_error : option thrown;
}.

(** The fields of [TestRunner]. Times are whole milliseconds. *)
Record TestRunner : Type := mkTestRunner {
  passed : nat;
  failed : nat;
  total : nat;
  startTime : N;
  testResults : list RunResult;
  testQueue : list TestCase;
  autoRunScheduled : bool;
  domContentLoaded : bool;
}.

(** The callbacks the runner hands to [setTimeout]: the one of
    [scheduleAutoRun] (50 ms) and the one of the [load] listener (100 ms). *)
Inductive timer : Type :=
| AutoRunTimer
| LoadTimer.

(** The page as the runner sees and changes it: the [testRunner] singleton,
    the console calls made so far (oldest first), the alerts shown,
    [window.__testCompleted], the pending timers and [performance.now()]. *)
Record Page : Type := mkPage {
  runner : TestRunner;
  console : list call;
  alerts : list string;
  testCompleted : bool;
  timers : list timer;
  clock : N;
}.

(** [new TestRunner()] in a fresh page. *)
Definition new_TestRunner : TestRunner :=
  {| passed := 0; failed := 0; total := 0; startTime := 0;
     testResults := []; testQueue := [];
     autoRunScheduled := false; domContentLoaded := false |}.

Definition fresh_page : Page :=
  {| runner := new_TestRunner; console := []; alerts := [];
     testCompleted := false; timers := []; clock := 0 |}.

Definition with_runner (f : TestRunner -> TestRunner) (p : Page) : Page :=
  {| runner := f (runner p); console := console p; alerts := alerts p;
     testCompleted := testCompleted p; timers := timers p; clock := clock p |}.

Definition emit (cs : list call) (p : Page) : Page :=
  {| runner := runner p; console := console p ++ cs; alerts := alerts p;
     testCompleted := testCompleted p; timers := timers p; clock := clock p |}.

Definition alert (s : string) (p : Page) : Page :=
  {| runner := runner p; console := console p; alerts := alerts p ++ [s];
     testCompleted := testCompleted p; timers := timers p; clock := clock p |}.

Definition set_testCompleted (p : Page) : Page :=
  {| runner := runner p; console := console p; alerts := alerts p;
     testCompleted := true; timers := timers p; clock := clock p |}.

Definition setTimeout (t : timer) (p : Page) : Page :=
  {| runner := runner p; console := console p; alerts := alerts p;
     testCompleted := testCompleted p; timers := timers p ++ [t];
     clock := clock p |}.

Definition set_timers (ts : list timer) (p : Page) : Page :=
  {| runner := runner p; console := console p; alerts := alerts p;
     testCompleted := testCompleted p; timers := ts; clock := clock p |}.

Definition advance (ms : N) (p : Page) : Page :=
  {| runner := runner p; console := console p; alerts := alerts p;
     testCompleted := testCompleted p; timers := timers p;
     clock := (clock p + ms)%N |}.

Definition set_autoRunScheduled (b : bool) (r : TestRunner) : TestRunner :=
  {| passed := passed r; failed := failed r; total := total r;
     startTime := startTime r; testResults := testResults r;
     testQueue := testQueue r; autoRunScheduled := b;
     domContentLoaded := domContentLoaded r |}.

Definition set_domContentLoaded (b : bool) (r : TestRunner) : TestRunner :=
  {| passed := passed r; failed := failed r; total := total r;
     startTime := startTime r; testResults := testResults r;
     testQueue := testQueue r; autoRunScheduled := autoRunScheduled r;
     domContentLoaded := b |}.

Definition set_testQueue (q : list TestCase) (r : TestRunner) : TestRunner :=
  {| passed := passed r; failed := failed r; total := total r;
     startTime := startTime r; testResults := testResults r;
     testQueue := q; autoRunScheduled := autoRunScheduled r;
     domContentLoaded := domContentLoaded r |}.

Definition set_total (n : nat) (r : TestRunner) : TestRunner :=
  {| passed := passed r; failed := failed r; total := n;
     startTime := startTime r; testResults := testResults r;
     testQueue := testQueue r; autoRunScheduled := autoRunScheduled r;
     domContentLoaded := domContentLoaded r |}.

(** [scheduleAutoRun()]. *)
Definition scheduleAutoRun (p : Page) : Page :=
  if autoRunScheduled (runner p) then p
  else setTimeout AutoRunTimer (with_runner (set_autoRunScheduled true) p).

(** [enqueueTest(name, fn)]. *)
Definition enqueueTest (t : TestCase) (p : Page) : Page :=
  let p := with_runner (fun r => set_testQueue (testQueue r ++ [t]) r) p in
  if domContentLoaded (runner p) then scheduleAutoRun p else p.

(** [start()]. *)
Definition start (p : Page) : Page :=
  let p :=
    with_runner (fun r =>
      {| passed := 0; failed := 0; total := 0;
         startTime := clock p; testResults := [];
         testQueue := testQueue r; autoRunScheduled := autoRunScheduled r;
         domContentLoaded := domContentLoaded r |}) p in
  emit [log "Running tests..."] p.

(** [AssertionError.prototype.log()]. *)
Definition AssertionError_log (e : AssertionError) (stack : string) : list call :=
  [mkCall Group [Text "🚨 AssertionError"];
   mkCall Error [Text "Message: "; Text (message e)]]
  ++ match err_actual e, err_expected e with
     | Some actual, Some expected =>
         [log "Actual:"; mkCall Dir [Inspect actual];
          log "Expected:"; mkCall Dir [Inspect expected]]
     | _, _ => []
     end
  ++ match differences e with
     | Some ds => [log "Differences:"; mkCall Dir [InspectDifferences ds]]
     | None => []
     end
  ++ [mkCall Debug [Text "Stack: "; Text stack];
      mkCall GroupEnd []].

(** The [for (const result of this.testResults)] loop of [logSummary]: the
    calls made, and whether the loop ran to its end. It does not when a
    failed result holds [null] or [undefined] as its error: reading
    [result.error.message] raises a [TypeError] there. *)
Fixpoint log_results (results : list RunResult) : list call * bool :=
  match results with
  | [] => ([], true)
  | result :: results' =>
      if result_passed result then
        let '(cs, ok) := log_results results' in
        (info ("✅ " +:+ result_name result) :: cs, ok)
      else
        let line := error ("❌ " +:+ result_name result) in
        match result_error result with
        | Some (ThrownAssertion e stack) =>
            let '(cs, ok) := log_results results' in
            (line :: AssertionError_log e stack ++ cs, ok)
        | Some (ThrownOther message_text) =>
            let '(cs, ok) := log_results results' in
            (line :: error ("  " +:+ message_text) :: cs, ok)
        | Some ThrownNullish | None => ([line], false)
        end
  end.

(** How the promise of an asynchronous method settles: with a value, or
    with the [TypeError] of [logSummary]. *)
Inductive settled : Type :=
| Resolved (v : value)
| RejectedTypeError.

(** [logSummary()]. *)
Definition logSummary (p : Page) : Page * settled :=
  let now := clock p in
  let this := runner p in
  let duration := toFixed3 (now - startTime this)%N in
  let p := emit [info (nl +:+ "📊 Tests: " +:+ of_nat (total this))] p in
  let '(cs, ok) := log_results (testResults this) in
  let p := emit cs p in
  if negb ok then (p, RejectedTypeError)
  else
    let p := emit [log nl] p in
    let p := emit [log ("✅ Passed: " +:+ of_nat (passed this))] p in
    let p :=
      if bool_decide (0 < failed this)
      then emit [log ("❌ Failed: " +:+ of_nat (failed this))] p
      else p in
    let p := emit [log ("⏱️ Duration: " +:+ duration +:+ "s")] p in
    if bool_decide (0 < failed this) then
      let p := emit [log (nl +:+ "❌ Tests failed")] p in
      let summary :=
        "❌ " +:+ of_nat (failed this) +:+ " of " +:+ of_nat (total this)
          +:+ " tests failed. See console for details." in
      let p := alert summary p in
      let p := set_testCompleted p in
      (p, Resolved (VBool false))
    else
      let p := emit [log (nl +:+ "✅ All tests passed")] p in
      let p := set_testCompleted p in
      (p, Resolved (VBool true)).

(** The [try]/[catch] around [await testCase.fn()], once the call has
    settled. *)
Definition record_outcome (testCase : TestCase) (p : Page) : Page :=
  with_runner (fun this =>
    match fn testCase with
    | Fulfilled =>
        {| passed := S (passed this); failed := failed this; total := total this;
           startTime := startTime this;
           testResults := testResults this
                          ++ [mkRunResult (name testCase) true None];
           testQueue := testQueue this;
           autoRunScheduled := autoRunScheduled this;
           domContentLoaded := domContentLoaded this |}
    | Rejected error =>
        {| passed := passed this; failed := S (failed this); total := total this;
           startTime := startTime this;
           testResults := testResults this
                          ++ [mkRunResult (name testCase) false (Some error)];
           testQueue := testQueue this;
           autoRunScheduled := autoRunScheduled this;
           domContentLoaded := domContentLoaded this |}
    end) p.

(** Where a call of [runPendingTests] stands: suspended at
    [await testCase.fn()] with the rest of [testsToRun] still to run, or
    settled. *)
Inductive RunStatus : Type :=
| Awaiting (testCase : TestCase) (rest : list TestCase)
| Done (s : settled).

(** [runPendingTests()] from its call to its first [await]. *)
Definition runPendingTests_begin (p : Page) : Page * RunStatus :=
  if bool_decide (length (testQueue (runner p)) = 0) then
    (p, Done (Resolved VUndefined))
  else
    let p := start p in
    let p := with_runner (fun this => set_total (length (testQueue this)) this) p in
    let testsToRun := testQueue (runner p) in
    let p := with_runner (set_testQueue []) p in
    match testsToRun with
    | testCase :: rest => (p, Awaiting testCase rest)
    | [] => let '(p, s) := logSummary p in (p, Done s)
    end.

(** [runPendingTests()] from the settling of the call it awaits to its next
    [await], or to its end. *)
Definition runPendingTests_resume (testCase : TestCase) (rest : list TestCase)
    (p : Page) : Page * RunStatus :=
  let p := record_outcome testCase p in
  match rest with
  | next :: rest' => (p, Awaiting next rest')
  | [] => let '(p, s) := logSummary p in (p, Done s)
  end.

(** The [for (const testCase of testsToRun)] loop with nothing else running
    in between. *)
Fixpoint run_tests (testsToRun : list TestCase) (p : Page) : Page :=
  match testsToRun with
  | [] => p
  | testCase :: rest => run_tests rest (record_outcome testCase p)
  end.

(** [runPendingTests()] run from its call to its end with nothing else
    running in between. *)
Definition runPendingTests (p : Page) : Page * settled :=
  if bool_decide (length (testQueue (runner p)) = 0) then
    (p, Resolved VUndefined)
  else
    let p := start p in
    let p := with_runner (fun this => set_total (length (testQueue this)) this) p in
    let testsToRun := testQueue (runner p) in
    let p := with_runner (set_testQueue []) p in
    let p := run_tests testsToRun p in
    logSummary p.

(** *** The event loop *)

(** The page together with the calls of [runPendingTests] made so far, in
    call order; a call is known by its position. *)
Record World : Type := mkWorld {
  page : Page;
  runs : list RunStatus;
}.

(** What the event loop runs, one at a time and each to its end:
    a call of [test(name, fn)], by a script of the page or by a test body;
    the two document events the constructor listens to; a pending timer
    firing; a direct call of [testRunner.runPendingTests()]; the settling of
    the test function a run awaits; time passing. *)
Inductive event : Type :=
| Register (testCase : TestCase)
| DOMContentLoaded
| Load
| Timeout (i : nat)
| Invoke
| Settle (rid : nat)
| Tick (ms : N).

Definition on_page (f : Page -> Page) (w : World) : World :=
  {| page := f (page w); runs := runs w |}.

(** A call of [runPendingTests()]. *)
Definition invoke (w : World) : World :=
  let '(p, st) := runPendingTests_begin (page w) in
  {| page := p; runs := runs w ++ [st] |}.

Definition step (w : World) (ev : event) : World :=
  match ev with
  | Register testCase => on_page (enqueueTest testCase) w
  | DOMContentLoaded =>
      on_page (fun p =>
        scheduleAutoRun (with_runner (set_domContentLoaded true) p)) w
  | Load => on_page (setTimeout LoadTimer) w
  | Timeout i =>
      match timers (page w) !! i with
      | Some AutoRunTimer =>
          invoke (on_page (fun p =>
            with_runner (set_autoRunScheduled false)
              (set_timers (delete i (timers p)) p)) w)
      | Some LoadTimer =>
          invoke (on_page (fun p => set_timers (delete i (timers p)) p) w)
      | None => w
      end
  | Invoke => invoke w
  | Settle rid =>
      match runs w !! rid with
      | Some (Awaiting testCase rest) =>
          let '(p, st) := runPendingTests_resume testCase rest (page w) in
          {| page := p; runs := <[rid := st]> (runs w) |}
      | _ => w
      end
  | Tick ms => on_page (advance ms) w
  end.

Definition exec (w : World) (evs : list event) : World := foldl step w evs.

Definition fresh_world : World := {| page := fresh_page; runs := [] |}.

End Runner.

(* ===================================================================== *)
(** ** The sandbox *)
(* ===================================================================== *)

Module Sandbox.
Import JS Assert.

(** A node is the document itself or any other node (an element, a document
    fragment), known by a number. *)
Inductive node : Type :=
| TheDocument
| Node (id : nat).

(** What [withSandbox] reads and changes of the document: the parent of every
    node that has one; [document.body]; whether
    [template[name="ui-test-sandbox"]] exists and, if so, whether its content
    holds a [section[name="ui-test-sandbox"]]; the attributes and style
    properties set on nodes; the number of the next node created. *)
Record Document : Type := mkDocument {
  parentNode : gmap nat node;
  body : nat;
  sandboxTemplate : option bool;
  settings : gmap nat (list (string * string));
  nextId : nat;
}.

(** The errors [withSandbox] ends with: the [TypeError] of
    [appendChild(null)], the [NotFoundError] of [removeChild], or whatever
    the callback raised. *)
Inductive error : Type :=
| TypeError
| NotFoundError
| Raised (v : value).

Definition set_parentNode (m : gmap nat node) (d : Document) : Document :=
  {| parentNode := m; body := body d; sandboxTemplate := sandboxTemplate d;
     settings := settings d; nextId := nextId d |}.

(** [document.createElement(tag)]: a new node without a parent. *)
Definition createElement (d : Document) : Document * nat :=
  ({| parentNode := parentNode d; body := body d;
      sandboxTemplate := sandboxTemplate d; settings := settings d;
      nextId := S (nextId d) |}, nextId d).

(** [el.setAttribute(k, v)]; a style property [el.style.k = v] is recorded
    the same way under the name [style.k]. *)
Definition setAttribute (el : nat) (k v : string) (d : Document) : Document :=
  {| parentNode := parentNode d; body := body d;
     sandboxTemplate := sandboxTemplate d;
     settings := <[el := default [] (settings d !! el) ++ [(k, v)]]> (settings d);
     nextId := nextId d |}.

(** [existingTemplate.content.cloneNode(true).querySelector(section)]: a new
    fragment and, when the template holds the section, its copy inside the
    fragment; [None] is [null]. *)
Definition clone_sandbox_section (has_section : bool) (d : Document)
  : Document * option nat :=
  let fragment := nextId d in
  if has_section then
    let section := S fragment in
    ({| parentNode := <[section := Node fragment]> (parentNode d);
        body := body d; sandboxTemplate := sandboxTemplate d;
        settings := settings d; nextId := S section |}, Some section)
  else
    ({| parentNode := parentNode d; body := body d;
        sandboxTemplate := sandboxTemplate d; settings := settings d;
        nextId := S fragment |}, None).

(** [parent.appendChild(child)]: the child leaves the parent it had. *)
Definition appendChild (parent : node) (child : nat) (d : Document) : Document :=
  set_parentNode (<[child := parent]> (parentNode d)) d.

(** [parent.removeChild(child)]; [None] is the [NotFoundError] raised when
    [child] is not a child of [parent]. *)
Definition removeChild (parent : node) (child : nat) (d : Document)
  : option Document :=
  match parentNode d !! child with
  | Some p =>
      match p, parent with
      | TheDocument, TheDocument => Some (set_parentNode (delete child (parentNode d)) d)
      | Node x, Node y =>
          if bool_decide (x = y)
          then Some (set_parentNode (delete child (parentNode d)) d)
          else None
      | _, _ => None
      end
  | None => None
  end.

(** A callback: given the sandbox it does what it does to the document and
    returns a value or raises one. *)
Definition callback : Type := nat -> Document -> Document * completion value value.

(** The choice of the sandbox node in [withSandbox]. *)
Definition make_sandbox (d : Document) : Document * option nat :=
  match sandboxTemplate d with
  | Some has_section => clone_sandbox_section has_section d
  | None =>
      let '(d, sandbox) := createElement d in
      let d := setAttribute sandbox "data-test-sandbox" "true" d in
      let d := setAttribute sandbox "style.position" "fixed" d in
      let d := setAttribute sandbox "style.inset" "0" d in
      let d := setAttribute sandbox "style.pointerEvents" "none" d in
      let d := setAttribute sandbox "style.visibility" "hidden" d in
      (d, Some sandbox)
  end.

(** [withSandbox(fn)], over a callback that settles. *)
Definition withSandbox (fn : callback) (d : Document)
  : Document * completion value error :=
  let '(d, sandbox) := make_sandbox d in
  match sandbox with
  | None => (d, Throws TypeError)
  | Some sandbox =>
      let d := appendChild (Node (body d)) sandbox d in
      let '(d, result) := fn sandbox d in
      match removeChild (Node (body d)) sandbox d with
      | Some d' =>
          (d', match result with
               | Returns v => Returns v
               | Throws e => Throws (Raised e)
               end)
      | None => (d, Throws NotFoundError)
      end
  end.

(** A node is attached to the document when its chain of parents ends at
    the document. *)
Inductive attached (d : Document) : node -> Prop :=
| attached_document : attached d TheDocument
| attached_child (id : nat) (p : node) :
    parentNode d !! id = Some p -> attached d p -> attached d (Node id).

End Sandbox.

(* ===================================================================== *)
(** ** The harness *)
(* ===================================================================== *)

Module Harness.
Import Console Text.

(** Strings are given by their UTF-8 bytes, as the source files spell the
    markers; on well-formed text a prefix, an occurrence and a replacement
    of bytes are those of the UTF-16 units the language compares. *)

(** [s.startsWith(p)]. *)
Definition startsWith (p s : string) : bool := String.prefix p s.

(** [s.includes(needle)]. *)
Fixpoint includes (needle s : string) : bool :=
  String.prefix needle s ||
  match s with
  | EmptyString => false
  | String _ s' => includes needle s'
  end.

(** [s.slice(n)]. *)
Fixpoint slice (n : nat) (s : string) : string :=
  match n, s with
  | S n', String _ s' => slice n' s'
  | _, _ => s
  end.

(** [s.replace(pattern, replacement)] for a string pattern that is not
    empty: the first occurrence only. *)
Fixpoint replace (pattern replacement s : string) : string :=
  if String.prefix pattern s then
    replacement +:+ slice (String.length pattern) s
  else
    match s with
    | EmptyString => EmptyString
    | String c s' => String c (replace pattern replacement s')
    end.

Definition bytes (l : list nat) : string :=
  string_of_list_ascii (ascii_of_nat <$> l).

(** The characters [trim] removes, in UTF-8: tab, line feed, vertical tab,
    form feed, carriage return, space, U+00A0, U+1680, U+2000 to U+200A,
    U+2028, U+2029, U+202F, U+205F, U+3000 and U+FEFF. *)
Definition white_space : list string :=
  (bytes <$> [[9]; [10]; [11]; [12]; [13]; [32]; [194; 160]; [225; 154; 128]])
  ++ ((fun x => bytes [226; 128; x]) <$> seq 128 11)
  ++ (bytes <$> [[226; 128; 168]; [226; 128; 169]; [226; 128; 175];
                 [226; 129; 159]; [227; 128; 128]; [239; 187; 191]]).

Definition reverse (s : string) : string :=
  string_of_list_ascii (rev (list_ascii_of_string s)).

(** The text after one leading character of [chars], if there is one. *)
Fixpoint strip_one (chars : list string) (s : string) : option string :=
  match chars with
  | [] => None
  | c :: chars' =>
      if String.prefix c s then Some (slice (String.length c) s)
      else strip_one chars' s
  end.

Fixpoint strip (n : nat) (chars : list string) (s : string) : string :=
  match n with
  | O => s
  | S n' =>
      match strip_one chars s with
      | Some s' => strip n' chars s'
      | None => s
      end
  end.

Definition trimStart (s : string) : string :=
  strip (String.length s) white_space s.

Definition trimEnd (s : string) : string :=
  reverse (strip (String.length s) (reverse <$> white_space) (reverse s)).

(** [s.trim()]. *)
Definition trim (s : string) : string := trimEnd (trimStart s).

Definition is_digit (c : ascii) : bool :=
  let n := nat_of_ascii c in bool_decide (48 <= n) && bool_decide (n <= 57).

(** The longest run of decimal digits [s] starts with. *)
Fixpoint digits (s : string) : string :=
  match s with
  | String c s' => if is_digit c then String c (digits s') else EmptyString
  | EmptyString => EmptyString
  end.

(** [s.match(/PREFIX(\d+)/)]: the group of the leftmost match, [None] when
    there is no match. *)
Fixpoint match_digits (prefix s : string) : option string :=
  let here :=
    if String.prefix prefix s then
      match digits (slice (String.length prefix) s) with
      | EmptyString => None
      | ds => Some ds
      end
    else None in
  match here with
  | Some ds => Some ds
  | None =>
      match s with
      | EmptyString => None
      | String _ s' => match_digits prefix s'
      end
  end.

(** [parseInt(ds)] for a run of digits, as an exact count. *)
Definition parseInt (ds : string) : nat :=
  foldl (fun n c => 10 * n + (nat_of_ascii c - 48)) 0 (list_ascii_of_string ds).

(** A console message as Playwright delivers it: [msg.type()] and
    [msg.text()]. *)
Record ConsoleMessage : Type := mkConsoleMessage {
  type : string;
  text : string;
}.

Section Capture.
(** How the browser and Playwright turn an inspected value into text is
    theirs to choose. *)
Variable inspect : arg -> string.

Definition arg_text (a : arg) : string :=
  match a with
  | Text s => s
  | _ => inspect a
  end.

Definition type_of (m : method) : string :=
  match m with
  | Log => "log"
  | Info => "info"
  | Error => "error"
  | Debug => "debug"
  | Dir => "dir"
  | Group => "startGroup"
  | GroupEnd => "endGroup"
  end.

(** The message the [page.on("console")] listener pushes for a call: the
    texts of the arguments joined by a space. *)
Definition capture (c : call) : ConsoleMessage :=
  {| type := type_of (meth c);
     text := String.concat " " (arg_text <$> args c) |}.
End Capture.

(** An element of what [extractTestResults] returns. *)
Record ExtractedTestResult : Type := mkExtracted {
  name : string;
  status : string;
  error : option string;
}.

(** The variables of [extractTestResults], and what it has logged on the
    harness's own console. *)
Record state : Type := mkState {
  results : list ExtractedTestResult;
  totalTests : nat;
  passedTests : nat;
  logged : list string;
}.

(** The body of [for (const msg of consoleMessages)]. *)
Definition scan (st : state) (msg : ConsoleMessage) : state :=
  let text := text msg in
  let st :=
    if includes "📊 Tests:" text then
      match match_digits "📊 Tests: " text with
      | Some ds => mkState (results st) (parseInt ds) (passedTests st) (logged st)
      | None => st
      end
    else st in
  let st :=
    if startsWith "✅ " text then
      let testName := trim (replace "✅ " "" text) in
      mkState (results st ++ [mkExtracted testName "passed" None])
              (totalTests st) (S (passedTests st)) (logged st)
    else if startsWith "❌ " text then
      let testName := trim (replace "❌ " "" text) in
      mkState (results st
               ++ [mkExtracted testName "failed" (Some "Test assertion failed")])
              (totalTests st) (passedTests st) (logged st)
    else st in
  let st :=
    if includes "✅ Passed:" text then
      match match_digits "✅ Passed: " text with
      | Some ds =>
          let reportedPassed := parseInt ds in
          mkState (results st) (totalTests st) (passedTests st)
                  (logged st ++ ["🔍 Browser reported " +:+ of_nat reportedPassed
                                 +:+ " passed tests"])
      | None => st
      end
    else st in
  if includes "✅ All tests passed" text then
    mkState (results st) (totalTests st) (passedTests st)
            (logged st ++ ["🎉 Browser reports all tests passed"])
  else st.

(** The generic entries made from the summary. *)
Definition generic_entries (totalTests passedTests : nat)
  : list ExtractedTestResult :=
  (fun i =>
     mkExtracted ("Browser Test " +:+ of_nat i)
                 (if bool_decide (i <= passedTests) then "passed" else "failed")
                 None) <$> seq 1 totalTests.

Definition extract (consoleMessages : list ConsoleMessage) : state :=
  let st := foldl scan (mkState [] 0 0 []) consoleMessages in
  if bool_decide (length (results st) = 0) && bool_decide (0 < totalTests st) then
    mkState (results st ++ generic_entries (totalTests st) (passedTests st))
            (totalTests st) (passedTests st)
            (logged st ++ ["📝 Creating " +:+ of_nat (totalTests st)
                           +:+ " generic test entries from summary"])
  else st.

(** [extractTestResults(consoleMessages)]. *)
Definition extractTestResults (consoleMessages : list ConsoleMessage)
  : list ExtractedTestResult :=
  results (extract consoleMessages).

End Harness.

(* ===================================================================== *)
(** ** The other assertions *)
(* ===================================================================== *)

Module Assertions.
Import JS Assert.

(** [!!v]: the falsy values are [undefined], [null], [false], [0], [-0],
    [NaN] and the empty string. *)
Definition truthy (v : value) : bool :=
  match v with
  | VUndefined | VNull => false
  | VBool b => b
  | VNumber n => negb (PrimFloat.eqb n 0%float || PrimFloat.is_nan n)
  | VString s => negb (bool_decide (s = ""))
  | VFunction _ | VObject _ => true
  end.

Section ToString.
(** [`${v}`]: how a number is printed and what an object's [toString]
    returns are the engine's and the object's own. *)
Variable ToString : value -> string.

(** [assert.equal(actual, expected)]. *)
Definition equal (actual expected : value) : completion unit AssertionError :=
  if negb (strict_equal actual expected) then
    let message :=
      "Expected " +:+ ToString expected +:+ ", but got " +:+ ToString actual in
    Throws {| message := message;
              err_actual := Some actual;
              err_expected := Some expected;
              differences := None |}
  else Returns tt.

End ToString.

(** [assert.ok(value, message = "Value should be truthy")]; [None] is a
    message that was not given. *)
Definition ok (value : value) (message : option string)
  : completion unit AssertionError :=
  let message := default "Value should be truthy" message in
  if negb (truthy value) then
    Throws {| message := message;
              err_actual := Some value;
              err_expected := Some (VBool true);
              differences := None |}
  else Returns tt.

End Assertions.

(* ===================================================================== *)
(** ** UI tests *)
(* ===================================================================== *)

Module UI.
Import JS Assert Sandbox.

(** What [document.querySelector(selector)] finds for [test.ui]: a template
    element whose content holds a number of top-level nodes, or another
    element, which has no [content], so that [content.cloneNode] raises a
    [TypeError] with the engine's message. *)
Inductive found : Type :=
| TemplateElement (nodes : nat)
| OtherElement (message : string).

Section Page.
(** The selector engine, which returns the first match or [null] ([None])
    or raises a [SyntaxError] for a selector it cannot parse, and the
    [Error] object made for a message. *)
Variable querySelector : Document -> string -> completion (option found) value.
Variable new_Error : string -> value.

(** [findTestTemplate(selector)]. *)
Definition findTestTemplate (selector : string) (d : Document)
  : completion found value :=
  match querySelector d selector with
  | Throws syntaxError => Throws syntaxError
  | Returns None =>
      Throws (new_Error ("test.ui(): Template not found: " +:+ selector))
  | Returns (Some testTemplate) => Returns testTemplate
  end.

(** The nodes [first], ..., [first + n - 1] made children of [parent]. *)
Fixpoint adopt_all (parent : node) (first n : nat) (m : gmap nat node)
  : gmap nat node :=
  match n with
  | O => m
  | S n' => <[first := parent]> (adopt_all parent (S first) n' m)
  end.

(** [cloneTemplateContent(testTemplate)]: a new fragment with copies of the
    content's nodes, or the wrapped error. *)
Definition cloneTemplateContent (testTemplate : found) (d : Document)
  : Document * completion nat value :=
  match testTemplate with
  | TemplateElement nodes =>
      let fragment := nextId d in
      ({| parentNode := adopt_all (Node fragment) (S fragment) nodes (parentNode d);
          body := body d; sandboxTemplate := sandboxTemplate d;
          settings := settings d; nextId := S fragment + nodes |},
       Returns fragment)
  | OtherElement message =>
      (d, Throws (new_Error
                    ("test.ui(): Failed to clone template content: " +:+ message)))
  end.

(** [makeTestDOM(selector)]. *)
Definition makeTestDOM (selector : string) (d : Document)
  : Document * completion nat value :=
  match findTestTemplate selector d with
  | Throws e => (d, Throws e)
  | Returns testTemplate => cloneTemplateContent testTemplate d
  end.

(** [parent.appendChild(fragment)] for a document fragment: its children
    become children of [parent], the fragment stays out and empty. *)
Definition appendFragment (parent fragment : nat) (d : Document) : Document :=
  set_parentNode
    ((fun p => match p with
               | Node x => if bool_decide (x = fragment) then Node parent else p
               | TheDocument => p
               end) <$> parentNode d) d.

(** The callback [test.ui] hands to [withSandbox]; [testFn] receives the
    sandbox as its [container]. *)
Definition testUI_callback (selector : string) (testFn : callback) : callback :=
  fun sandbox d =>
    match makeTestDOM selector d with
    | (d, Throws e) => (d, Throws e)
    | (d, Returns templateFragment) =>
        let d := appendFragment sandbox templateFragment d in
        let '(d, result) := testFn sandbox d in
        (d, match result with
            | Returns _ => Returns VUndefined
            | Throws e => Throws e
            end)
    end.

(** The function [test.ui(name, selector, testFn)] registers under [name]. *)
Definition testUI_body (selector : string) (testFn : callback) (d : Document)
  : Document * completion value error :=
  let '(d, result) := withSandbox (testUI_callback selector testFn) d in
  (d, match result with
      | Returns _ => Returns VUndefined
      | Throws e => Throws e
      end).

End Page.

End UI.

(* ===================================================================== *)
(** ** The harness's verdict *)
(* ===================================================================== *)

Module Verdict.
Import Harness.





End Verdict.

(* ===================================================================== *)
(** ** Facts about [diff] and [assert.deepEqual] *)
(* ===================================================================== *)

Module AssertFacts.
Import JS Assert.

(** *** Vocabulary *)

(** [NaN] is the one value that is not strictly equal to itself. *)
Definition is_NaN (v : value) : bool :=
  match v with
  | VNumber n => PrimFloat.is_nan n
  | _ => false
  end.

(** The error [deepEqual] raises for a list of differences. *)
Definition not_deeply_equal (actual expected : value) (ds : list Difference)
  : AssertionError :=
  {| message := "Values are not deeply equal";
     err_actual := Some actual;
     err_expected := Some expected;
     differences := Some ds |}.

(** [Object.prototype]: no enumerable property; its methods, here the
    functions 101 to 111; its accessor [__proto__], which on
    [Object.prototype] itself returns [null]; no prototype. *)
Definition Object_prototype : object :=
  {| enumerable := [];
     hidden := [ ("constructor", VFunction 101);
                 ("__defineGetter__", VFunction 102);
                 ("__defineSetter__", VFunction 103);
                 ("hasOwnProperty", VFunction 104);
                 ("__lookupGetter__", VFunction 105);
                 ("__lookupSetter__", VFunction 106);
                 ("isPrototypeOf", VFunction 107);
                 ("propertyIsEnumerable", VFunction 108);
                 ("toString", VFunction 109);
                 ("valueOf", VFunction 110);
                 ("toLocaleString", VFunction 111);
                 ("__proto__", VNull) ];
     prototype := None |}.

(** An object written as a literal [{k1: v1, ...}], in a heap that holds
    [Object.prototype] at reference 0: its properties are enumerable, its
    prototype is [Object.prototype], which the inherited accessor
    [__proto__] returns. *)
Definition literal (ps : props) : object :=
  {| enumerable := ps; hidden := [("__proto__", VObject 0)]; prototype := Some 0 |}.

(** The operands of the scenario: [{a:1,b:{c:2}}] at reference 1 and
    [{a:1,b:{c:3}}] at reference 3, their inner objects at 2 and 4. *)
Definition scenario_heap : heap :=
  {[ 0 := Object_prototype;
     1 := literal [("a", VNumber 1%float); ("b", VObject 2)];
     2 := literal [("c", VNumber 2%float)];
     3 := literal [("a", VNumber 1%float); ("b", VObject 4)];
     4 := literal [("c", VNumber 3%float)] ]}.

(** What [diff] does at [key] of the objects [a] and [b]: one operand of the
    recursive call is [undefined], and the call yields the one difference at
    [path] extended by [key] between the two values read. *)
Definition one_difference_at (depth : nat) (h : heap) (a b : value)
    (path : list string) (key : string) : Prop :=
  (get h a key = VUndefined \/ get h b key = VUndefined) /\
  diff depth h (get h a key) (get h b key) (path ++ [key])
  = Some [ {| path := path ++ [key];
              actual := get h a key;
              expected := get h b key |} ].

(** [{x: undefined}] at reference 1 and [{}] at reference 2. *)
Definition undefined_member_heap : heap :=
  {[ 0 := Object_prototype; 1 := literal [("x", VUndefined)]; 2 := literal [] ]}.

(** [{a: 1}] at reference 1 and [{}] at reference 2. *)
Definition one_member_heap : heap :=
  {[ 0 := Object_prototype; 1 := literal [("a", VNumber 1%float)]; 2 := literal [] ]}.

(** [{constructor: Object}] at reference 1, [{valueOf: 1}] at reference 2,
    [{toString: undefined}] at reference 3 and [{}] at reference 4; [Object]
    is the function 101. *)
Definition inherited_member_heap : heap :=
  {[ 0 := Object_prototype;
     1 := literal [("constructor", VFunction 101)];
     2 := literal [("valueOf", VNumber 1%float)];
     3 := literal [("toString", VUndefined)];
     4 := literal [] ]}.

(** [Array.prototype] at reference 5, as far as its own properties are read
    here, the array [[1]] at reference 1 with its [length], which is not
    enumerable, and [{0: 1, length: 1}] at reference 2. *)
Definition array_heap : heap :=
  {[ 0 := Object_prototype;
     5 := {| enumerable := [];
             hidden := [("length", VNumber 0%float); ("constructor", VFunction 120)];
             prototype := Some 0 |};
     1 := {| enumerable := [("0", VNumber 1%float)];
             hidden := [("length", VNumber 1%float); ("__proto__", VObject 5)];
             prototype := Some 5 |};
     2 := literal [("0", VNumber 1%float); ("length", VNumber 1%float)] ]}.

(** [x = {self: x}]: an object that refers to itself. *)
Definition cyclic_heap : heap :=
  {[ 0 := Object_prototype; 1 := literal [("self", VObject 1)] ]}.

(** [a = {self: a}] and [b = {self: b}]: two such objects. *)
Definition two_cycles_heap : heap :=
  {[ 0 := Object_prototype;
     1 := literal [("self", VObject 1)];
     2 := literal [("self", VObject 2)] ]}.

(** A cycle through a prototype: [A0 = {self: A1}] at reference 1 and
    [A1 = Object.create(Z)] at 2 with [Z = {self: A0}] at 3;
    [B0 = Object.create(Y)] at 4 with [Y = {self: B1}] at 6 and
    [B1 = {self: B0}] at 5. No object reaches itself through own enumerable
    properties, each of [A0], [A1], [B0] and [B1] does through reads. *)
Definition inherited_cycle_heap : heap :=
  {[ 0 := Object_prototype;
     1 := literal [("self", VObject 2)];
     2 := {| enumerable := []; hidden := [("__proto__", VObject 3)];
             prototype := Some 3 |};
     3 := literal [("self", VObject 1)];
     4 := {| enumerable := []; hidden := [("__proto__", VObject 6)];
             prototype := Some 6 |};
     5 := literal [("self", VObject 4)];
     6 := literal [("self", VObject 5)] ]}.

(** The objects of [h] are ranked by [rank] when every object that a read
    of a property returns, own or inherited, enumerable or not, has a
    smaller rank than the object read: no chain of reads leads back to where
    it started. *)
Definition ranked (h : heap) (rank : loc -> nat) : Prop :=
  forall l key l', get h (VObject l) key = VObject l' -> rank l' < rank l.

(** A check that suffices: the objects that the properties of an object
    hold rank below it, and its prototype does not rank above it. *)
Definition values_below (rank : loc -> nat) (bound : nat) (ps : props) : bool :=
  forallb (fun kv => match kv.2 with
                     | VObject l' => bool_decide (rank l' < bound)
                     | _ => true
                     end) ps.

Definition object_ranked (rank : loc -> nat) (l : loc) (o : object) : bool :=
  values_below rank (rank l) (enumerable o)
  && values_below rank (rank l) (hidden o)
  && match prototype o with
     | Some p => bool_decide (rank p <= rank l)
     | None => true
     end.

Definition well_ranked (h : heap) (rank : loc -> nat) : bool :=
  forallb (fun lo => object_ranked rank lo.1 lo.2) (map_to_list h).

(** The frames a traversal from [v] needs at most. *)
Definition frames (rank : loc -> nat) (v : value) : nat :=
  match v with
  | VObject l => rank l + 2
  | _ => 1
  end.

(** A ranking of [scenario_heap]: the outer objects above the inner ones,
    these above [Object.prototype]. *)
Definition scenario_rank (l : loc) : nat :=
  match l with
  | 1 | 3 => 2
  | 2 | 4 => 1
  | _ => 0
  end.

Lemma strict_equal_refl (v : value) : is_NaN v = false -> strict_equal v v = true.
Proof.
  destruct v; simpl; intros H; try reflexivity; try (by apply bool_decide_eq_true).
  unfold PrimFloat.is_nan in H. by apply negb_false_iff in H.
Qed.

Lemma strict_equal_undefined_r (v : value) :
  v <> VUndefined -> strict_equal v VUndefined = false.
Proof. by destruct v. Qed.

Lemma isObject_undefined : isObject VUndefined = false.
Proof. reflexivity. Qed.

(** *** The key set *)

Lemma Set_of_elem (seen keys : list string) (k : string) :
  k ∈ Set_of seen keys <-> k ∈ keys /\ k ∉ seen.
Proof.
  revert seen. induction keys as [|k' keys IH]; intros seen; simpl.
  - split; [by intros ?%elem_of_nil | by intros [?%elem_of_nil _]].
  - case_bool_decide as Hin.
    + rewrite IH, elem_of_cons. split; [tauto|].
      intros [[->|?] ?]; [done | tauto].
    + rewrite elem_of_cons, IH, elem_of_cons, elem_of_cons.
      split.
      * intros [->|[? ?]]; [tauto|]. split; [tauto|]. tauto.
      * intros [[->|?] ?]; [tauto|].
        destruct (decide (k = k')) as [->|]; [tauto|]. right. tauto.
Qed.

Lemma Set_of_nil_elem (keys : list string) (k : string) :
  k ∈ Set_of [] keys <-> k ∈ keys.
Proof.
  rewrite Set_of_elem. split; [tauto|]. intros ?; split; [done|].
  apply not_elem_of_nil.
Qed.

Lemma assoc_None (key : string) (ps : props) :
  key ∉ ps.*1 -> assoc key ps = None.
Proof.
  induction ps as [|[k v] ps IH]; simpl; [done|].
  rewrite not_elem_of_cons. intros [Hne Hnot].
  case_bool_decide; [congruence | auto].
Qed.

Lemma assoc_Some_elem (key : string) (ps : props) (v : value) :
  assoc key ps = Some v -> (key, v) ∈ ps.
Proof.
  induction ps as [|[k x] ps IH]; simpl; [done|].
  case_bool_decide as Hk.
  - intros [= ->]. subst. apply list_elem_of_here.
  - intros Hv. apply list_elem_of_further. auto.
Qed.

Lemma assoc_elem (key : string) (ps : props) :
  key ∈ ps.*1 -> is_Some (assoc key ps).
Proof.
  induction ps as [|[k x] ps IH]; simpl; [by intros ?%elem_of_nil|].
  case_bool_decide as Hk; [by eexists|].
  intros [?|?]%elem_of_cons; [done|auto].
Qed.

(** *** Reading a property *)

(** An own enumerable property is read before any other. *)
Lemma get_own (h : heap) (l : loc) (key : string) (v : value) :
  assoc key (own_props h l) = Some v -> get h (VObject l) key = v.
Proof.
  unfold get, own_props. cbn [lookup_property].
  destruct (h !! l) as [o|]; [|done]. by intros ->.
Qed.

(** A key that [Object.keys] lists is a property. *)
Lemma has_property_own (h : heap) (l : loc) (key : string) :
  key ∈ Object_keys h (VObject l) -> has_property h l key = true.
Proof.
  intros [v Hv]%assoc_elem. apply bool_decide_eq_true.
  revert Hv. unfold own_props. cbn [lookup_property].
  destruct (h !! l) as [o|]; [|done]. intros ->. by eexists.
Qed.

(** Reading a key under which the object has no property, own or inherited,
    gives [undefined]. *)
Lemma get_absent (h : heap) (l : loc) (key : string) :
  has_property h l key = false -> get h (VObject l) key = VUndefined.
Proof.
  intros H%bool_decide_eq_false. unfold get.
  destruct (lookup_property (S (size h)) h l key) as [v|]; [|done].
  destruct H. by eexists.
Qed.

(** *** The loop over the keys *)

Lemma diff_keys_elem rec h a b path keys key ds dk :
  diff_keys rec h a b path keys = Some ds ->
  key ∈ keys ->
  rec (get h a key) (get h b key) (path ++ [key]) = Some dk ->
  forall d, d ∈ dk -> d ∈ ds.
Proof.
  revert ds. induction keys as [|k keys IH]; intros ds; simpl.
  - by intros _ ?%elem_of_nil.
  - destruct (rec (get h a k) (get h b k) (path ++ [k])) as [d1|] eqn:E1; [|done].
    destruct (diff_keys rec h a b path keys) as [d2|] eqn:E2; [|done].
    intros [= <-] Hin Hrec d Hd. rewrite elem_of_app.
    apply elem_of_cons in Hin as [->|Hin].
    + left. congruence.
    + right. by eapply IH.
Qed.

Lemma diff_keys_mono (rec rec' : value -> value -> list string -> option (list Difference))
    h a b path keys ds :
  (forall x y p r, rec x y p = Some r -> rec' x y p = Some r) ->
  diff_keys rec h a b path keys = Some ds ->
  diff_keys rec' h a b path keys = Some ds.
Proof.
  intros Hrec. revert ds. induction keys as [|k keys IH]; intros ds; simpl; [done|].
  destruct (rec (get h a k) (get h b k) (path ++ [k])) as [d1|] eqn:E1; [|done].
  destruct (diff_keys rec h a b path keys) as [d2|] eqn:E2; [|done].
  intros [= <-]. by rewrite (Hrec _ _ _ _ E1), (IH _ eq_refl).
Qed.

(** A traversal that came back within [depth] frames comes back with the same
    differences when more frames are allowed. *)
Lemma diff_depth_mono (depth depth' : nat) h a b path ds :
  depth <= depth' ->
  diff depth h a b path = Some ds ->
  diff depth' h a b path = Some ds.
Proof.
  revert depth' a b path ds.
  induction depth as [|depth IH]; intros depth' a b path ds Hle; simpl; [done|].
  destruct depth' as [|depth']; [lia|]. simpl.
  destruct (strict_equal a b); [done|].
  destruct (negb (isObject a) || negb (isObject b)); [done|].
  apply diff_keys_mono. intros x y p r. apply IH. lia.
Qed.

(** Two values that are strictly equal have no difference, whatever they
    refer to: the test comes before any key is read. *)
Lemma diff_strict_equal (depth : nat) h a b path :
  strict_equal a b = true -> diff (S depth) h a b path = Some [].
Proof. simpl. by intros ->. Qed.

(** Unequal operands of which one is not an object give one difference. *)
Lemma diff_leaf (depth : nat) h a b path :
  strict_equal a b = false ->
  isObject a = false \/ isObject b = false ->
  diff (S depth) h a b path
  = Some [ {| path := path; actual := a; expected := b |} ].
Proof.
  simpl. intros -> [-> | ->]; simpl; [done|]. by rewrite orb_true_r.
Qed.

(** *** Acyclic operands *)

Lemma diff_keys_total rec h a b path keys :
  (forall key, key ∈ keys ->
     exists ds, rec (get h a key) (get h b key) (path ++ [key]) = Some ds) ->
  exists ds, diff_keys rec h a b path keys = Some ds.
Proof.
  induction keys as [|k keys IH]; intros Hrec; simpl; [by eexists|].
  destruct (Hrec k) as [d1 ->]; [apply list_elem_of_here|].
  destruct IH as [d2 ->]; [|by eexists].
  intros key Hkey. apply Hrec. by apply list_elem_of_further.
Qed.

Lemma frames_get (h : heap) (rank : loc -> nat) (l : loc) (key : string) :
  ranked h rank -> frames rank (get h (VObject l) key) <= rank l + 1.
Proof.
  intros Hranked. destruct (get h (VObject l) key) as [| | | | | |l'] eqn:E;
    simpl; try lia.
  specialize (Hranked l key l' E). lia.
Qed.

(** On a heap without cycles the traversal comes back: [diff] has a result
    as soon as the frames allowed cover the rank of the first operand. *)
Lemma diff_terminates_acyclic (h : heap) (rank : loc -> nat) :
  ranked h rank ->
  forall depth a b path,
    frames rank a <= depth -> exists ds, diff depth h a b path = Some ds.
Proof.
  intros Hranked. induction depth as [|depth IH]; intros a b path Hdepth.
  - destruct a; simpl in Hdepth; lia.
  - simpl. destruct (strict_equal a b); [by eexists|].
    destruct (negb (isObject a) || negb (isObject b)) eqn:Hobj; [by eexists|].
    apply diff_keys_total. intros key _. apply IH.
    destruct a as [| | | | | |la]; try discriminate Hobj.
    pose proof (frames_get h rank la key Hranked). simpl in Hdepth. lia.
Qed.

(** On a heap without cycles [assert.deepEqual] returns or raises: it has
    a result as soon as the frames allowed cover the rank of [actual]. *)
Theorem deepEqual_total_acyclic (h : heap) (rank : loc -> nat)
    (depth : nat) (actual expected : value) :
  ranked h rank ->
  frames rank actual <= depth ->
  exists r, deepEqual depth h actual expected = Some r.
Proof.
  intros Hranked Hdepth. unfold deepEqual.
  destruct (diff_terminates_acyclic h rank Hranked depth actual expected [] Hdepth)
    as [ds ->].
  destruct (bool_decide (0 < length ds)); by eexists.
Qed.

Lemma values_below_elem (rank : loc -> nat) (bound : nat) (ps : props)
    (key : string) (l' : loc) :
  values_below rank bound ps = true -> assoc key ps = Some (VObject l') ->
  rank l' < bound.
Proof.
  intros Hall Hv%assoc_Some_elem. unfold values_below in Hall.
  rewrite forallb_forall in Hall.
  specialize (Hall (key, VObject l')). simpl in Hall.
  eapply bool_decide_eq_true_1, Hall. by apply list_elem_of_In.
Qed.

Lemma well_ranked_lookup (h : heap) (rank : loc -> nat) (l : loc) (o : object) :
  well_ranked h rank = true -> h !! l = Some o -> object_ranked rank l o = true.
Proof.
  unfold well_ranked. rewrite forallb_forall. intros Hall Hl.
  apply (Hall (l, o)). apply list_elem_of_In. by apply elem_of_map_to_list.
Qed.

(** The check is enough: what a read returns is held by the object or by
    one of its prototypes, none of which ranks above it. *)
Lemma well_ranked_ranked (h : heap) (rank : loc -> nat) :
  well_ranked h rank = true -> ranked h rank.
Proof.
  intros Hwell.
  assert (forall fuel l key l',
            lookup_property fuel h l key = Some (VObject l') -> rank l' < rank l)
    as Hchain.
  { induction fuel as [|fuel IH]; intros l key l'; [done|]. cbn [lookup_property].
    destruct (h !! l) as [o|] eqn:Hl; [|done].
    pose proof (well_ranked_lookup h rank l o Hwell Hl) as Ho.
    unfold object_ranked in Ho.
    apply andb_true_iff in Ho as [[He Hh]%andb_true_iff Hp].
    destruct (assoc key (enumerable o)) as [v|] eqn:Ee.
    { intros [= ->]. by apply (values_below_elem rank _ _ key l' He). }
    destruct (assoc key (hidden o)) as [v|] eqn:Eh.
    { intros [= ->]. by apply (values_below_elem rank _ _ key l' Hh). }
    destruct (prototype o) as [p|]; [|done].
    intros Hv%IH. apply bool_decide_eq_true in Hp. lia. }
  intros l key l'. unfold get.
  destruct (lookup_property (S (size h)) h l key) as [v|] eqn:E; [|done].
  simpl. intros ->. by apply (Hchain _ _ _ _ E).
Qed.

Lemma scenario_heap_ranked : ranked scenario_heap scenario_rank.
Proof. apply well_ranked_ranked. vm_compute. reflexivity. Qed.

Lemma deepEqual_total_acyclic_witness :
  exists r, deepEqual 4 scenario_heap (VObject 1) (VObject 3) = Some r.
Proof.
  apply (deepEqual_total_acyclic scenario_heap scenario_rank 4 (VObject 1) (VObject 3)).
  - exact scenario_heap_ranked.
  - simpl. apply le_n.
Defined.

(** A cycle through inherited properties is a cycle: in
    [inherited_cycle_heap] no object reaches itself through its own
    enumerable properties, yet [diff(A0, B0)] does not come back, and no
    ranking exists. *)
Lemma inherited_cycle_diverges :
  (forall depth path,
     diff depth inherited_cycle_heap (VObject 1) (VObject 4) path = None) /\
  (forall rank, ~ ranked inherited_cycle_heap rank).
Proof.
  split.
  - assert (forall depth path,
              diff depth inherited_cycle_heap (VObject 1) (VObject 4) path = None /\
              diff depth inherited_cycle_heap (VObject 2) (VObject 5) path = None)
      as Hboth.
    { induction depth as [|depth IH]; intros path; [done|]. split.
      - change (diff (S depth) inherited_cycle_heap (VObject 1) (VObject 4) path) with
          (match diff depth inherited_cycle_heap (VObject 2) (VObject 5)
                   (path ++ ["self"]) with
           | None => None
           | Some ds => Some (ds ++ [])
           end).
        by rewrite (proj2 (IH _)).
      - change (diff (S depth) inherited_cycle_heap (VObject 2) (VObject 5) path) with
          (match diff depth inherited_cycle_heap (VObject 1) (VObject 4)
                   (path ++ ["self"]) with
           | None => None
           | Some ds => Some (ds ++ [])
           end).
        by rewrite (proj1 (IH _)). }
    intros depth path. apply Hboth.
  - intros rank Hranked.
    pose proof (Hranked 1 "self" 2 eq_refl) as H1.
    pose proof (Hranked 2 "self" 1 eq_refl) as H2. lia.
Qed.

(** *** [assert.deepEqual] and the differences *)

(** C3. [assert.deepEqual(actual, expected)] raises exactly when the drained
    [diff(actual, expected)] is a non-empty list, the error it raises carries
    that whole list (with both operands), and it returns exactly when the
    list is empty; on [{a:1,b:{c:2}}] against [{a:1,b:{c:3}}] it raises with
    the single difference at path [["b","c"]], actual 2, expected 3, at every
    depth that lets the traversal reach the leaf. *)
Theorem deepEqual_raises_iff_differences :
  (forall depth h actual expected err,
     deepEqual depth h actual expected = Some (Throws err) <->
     exists ds, diff depth h actual expected [] = Some ds /\ ds <> [] /\
                err = not_deeply_equal actual expected ds)
  /\ (forall depth h actual expected,
        deepEqual depth h actual expected = Some (Returns tt) <->
        diff depth h actual expected [] = Some [])
  /\ (forall depth, 3 <= depth ->
        deepEqual depth scenario_heap (VObject 1) (VObject 3)
        = Some (Throws (not_deeply_equal (VObject 1) (VObject 3)
                          [ {| path := ["b"; "c"];
                               actual := VNumber 2%float;
                               expected := VNumber 3%float |} ]))).
Proof.
  split; [|split].
  - intros depth h a e err. unfold deepEqual.
    destruct (diff depth h a e []) as [ds|] eqn:E.
    + destruct ds as [|d ds]; simpl.
      * split; [done|]. by intros (ds' & [= <-] & ? & _).
      * split.
        -- intros [= <-]. by exists (d :: ds).
        -- by intros (ds' & [= <-] & _ & ->).
    + split; [done|]. by intros (ds' & ? & _).
  - intros depth h a e. unfold deepEqual.
    destruct (diff depth h a e []) as [ds|] eqn:E; [|done].
    destruct ds as [|d ds]; simpl; [done|]. split; [done|]. by intros [= ?].
  - intros depth Hdepth. unfold deepEqual.
    rewrite (diff_depth_mono 3 depth scenario_heap (VObject 1) (VObject 3) []
               [ {| path := ["b"; "c"]; actual := VNumber 2%float;
                    expected := VNumber 3%float |} ] Hdepth); [done|].
    vm_compute. reflexivity.
Qed.

Lemma deepEqual_raises_iff_differences_witness :
  3 <= 5 /\
  deepEqual 5 scenario_heap (VObject 1) (VObject 3)
  = Some (Throws (not_deeply_equal (VObject 1) (VObject 3)
                    [ {| path := ["b"; "c"];
                         actual := VNumber 2%float;
                         expected := VNumber 3%float |} ])).
Proof.
  split; [lia|].
  apply (proj2 (proj2 deepEqual_raises_iff_differences) 5). lia.
Defined.

(** *** A key that only one operand owns *)

(** C4, as stated, fails: [x] is an own key of [{x: undefined}] and not of
    [{}], which has no property of that name on its prototype chain either;
    both reads give [undefined], the two are strictly equal and [diff]
    yields nothing at that key, at any depth; the two objects have no
    difference at all. *)
Lemma missing_key_undefined_value_no_difference :
  "x" ∈ Object_keys undefined_member_heap (VObject 1) /\
  ("x" ∉ Object_keys undefined_member_heap (VObject 2)) /\
  (forall depth,
     ~ one_difference_at depth undefined_member_heap (VObject 1) (VObject 2) [] "x") /\
  diff 2 undefined_member_heap (VObject 1) (VObject 2) [] = Some [].
Proof.
  split; [|split; [|split]].
  - vm_compute. apply list_elem_of_here.
  - vm_compute. apply not_elem_of_nil.
  - intros depth [_ H]. destruct depth as [|depth]; simpl in H; [done|].
    vm_compute in H. discriminate H.
  - vm_compute. reflexivity.
Qed.

(** The other operand is read as the language reads it, through its
    prototype and its properties that are not enumerable:
    [{constructor: Object}] against [{}] has no difference, since [{}]
    inherits that very function; [{valueOf: 1}] and [{toString: undefined}]
    against [{}] are compared with the inherited methods; and the array
    [[1]] has no difference with [{0: 1, length: 1}], its [length] being
    read although [Object.keys] does not list it. *)
Lemma inherited_key_compared :
  diff 2 inherited_member_heap (VObject 1) (VObject 4) [] = Some [] /\
  diff 2 inherited_member_heap (VObject 2) (VObject 4) []
  = Some [ {| path := ["valueOf"]; actual := VNumber 1%float;
              expected := VFunction 110 |} ] /\
  diff 2 inherited_member_heap (VObject 3) (VObject 4) []
  = Some [ {| path := ["toString"]; actual := VUndefined;
              expected := VFunction 109 |} ] /\
  diff 2 array_heap (VObject 1) (VObject 2) [] = Some [].
Proof. vm_compute. repeat split; reflexivity. Qed.

Lemma diff_keys_key rec h a b path keys key ds :
  diff_keys rec h a b path keys = Some ds ->
  key ∈ keys ->
  exists dk, rec (get h a key) (get h b key) (path ++ [key]) = Some dk.
Proof.
  revert ds. induction keys as [|k keys IH]; intros ds; simpl.
  - by intros _ ?%elem_of_nil.
  - destruct (rec (get h a k) (get h b k) (path ++ [k])) as [d1|] eqn:E1; [|done].
    destruct (diff_keys rec h a b path keys) as [d2|] eqn:E2; [|done].
    intros _ [->|Hin]%elem_of_cons; [by eexists|]. by eapply IH.
Qed.

(** At every key that one of two distinct objects lists, [diff] compares the
    two values read under that key, and what the comparison yields is among
    the differences of the two objects. *)
Lemma diff_compares_reads (depth : nat) (h : heap) (la lb : loc)
    (path : list string) (key : string) (ds : list Difference) :
  la <> lb ->
  key ∈ Object_keys h (VObject la) ++ Object_keys h (VObject lb) ->
  diff (S depth) h (VObject la) (VObject lb) path = Some ds ->
  exists dk,
    diff depth h (get h (VObject la) key) (get h (VObject lb) key) (path ++ [key])
    = Some dk /\
    forall d, d ∈ dk -> d ∈ ds.
Proof.
  intros Hne Hkey Hds. cbn [diff] in Hds.
  assert (strict_equal (VObject la) (VObject lb) = false) as Hseq.
  { simpl. by apply bool_decide_eq_false. }
  rewrite Hseq in Hds. cbn [isObject not_nullish typeof negb orb andb] in Hds.
  rewrite bool_decide_eq_true_2 in Hds by done. cbn [negb orb] in Hds.
  apply Set_of_nil_elem in Hkey.
  destruct (diff_keys_key _ _ _ _ _ _ _ _ Hds Hkey) as [dk Hdk].
  exists dk. split; [exact Hdk|].
  by apply (diff_keys_elem _ _ _ _ _ _ _ _ _ Hds Hkey Hdk).
Qed.

(** C4, amended. For objects [a] and [b] and a key that one of them lists
    among its own enumerable keys, with a value that is not [undefined],
    while the other has no property of that name, own or inherited: exactly
    one of the two lists the key, the other read gives [undefined], the
    recursive call at that key yields exactly one difference, at the path
    extended by the key, between the present value and [undefined] (on the
    side of the operand that has it), and that difference is among those of
    [diff(a, b)] whenever the two are distinct objects and the traversal
    comes back. *)
Theorem diff_key_in_one_operand (depth : nat) (h : heap) (la lb : loc)
    (path : list string) (key : string) :
  let a := VObject la in
  let b := VObject lb in
  (key ∈ Object_keys h a /\ has_property h lb key = false /\
   get h a key <> VUndefined) \/
  (has_property h la key = false /\ key ∈ Object_keys h b /\
   get h b key <> VUndefined) ->
  ((key ∈ Object_keys h a /\ (key ∉ Object_keys h b)) \/
   ((key ∉ Object_keys h a) /\ key ∈ Object_keys h b)) /\
  one_difference_at (S depth) h a b path key /\
  (forall ds, la <> lb -> diff (S (S depth)) h a b path = Some ds ->
     {| path := path ++ [key]; actual := get h a key; expected := get h b key |} ∈ ds).
Proof.
  intros a b Hkey.
  assert (Hnot : forall l, has_property h l key = false ->
                           key ∉ Object_keys h (VObject l)).
  { intros l Hl Hin. rewrite (has_property_own h l key Hin) in Hl. done. }
  assert (Hone : one_difference_at (S depth) h a b path key).
  { destruct Hkey as [(Ha & Hb & Hv) | (Ha & Hb & Hv)].
    - pose proof (get_absent h lb key Hb) as Eb. fold b in Eb.
      split; [by right|]. rewrite Eb. apply diff_leaf.
      + by apply strict_equal_undefined_r.
      + by right.
    - pose proof (get_absent h la key Ha) as Ea. fold a in Ea.
      split; [by left|]. rewrite Ea. apply diff_leaf.
      + destruct (get h b key); done.
      + by left. }
  split; [|split; [exact Hone|]].
  { destruct Hkey as [(Ha & Hb & _) | (Ha & Hb & _)].
    - left. split; [done|]. by apply Hnot.
    - right. split; [|done]. by apply Hnot. }
  intros ds Hne Hds. destruct Hone as [_ Hone].
  destruct (diff_compares_reads (S depth) h la lb path key ds Hne) as (dk & Hdk & Hin);
    [|exact Hds|].
  { apply elem_of_app. tauto. }
  apply Hin. fold a b in Hdk. rewrite Hone in Hdk. injection Hdk as <-.
  apply list_elem_of_here.
Qed.

Lemma diff_key_in_one_operand_witness :
  ("a" ∈ Object_keys one_member_heap (VObject 1) /\
   ("a" ∉ Object_keys one_member_heap (VObject 2))) /\
  one_difference_at 1 one_member_heap (VObject 1) (VObject 2) [] "a" /\
  {| path := ["a"]; actual := VNumber 1%float; expected := VUndefined |}
  ∈ [ {| path := ["a"]; actual := VNumber 1%float; expected := VUndefined |} ].
Proof.
  destruct (diff_key_in_one_operand 0 one_member_heap 1 2 [] "a")
    as (Hkey & Hone & Hin).
  { left. split; [|split].
    - vm_compute. apply list_elem_of_here.
    - vm_compute. reflexivity.
    - vm_compute. discriminate. }
  split; [|split; [exact Hone|]].
  - split; [vm_compute; apply list_elem_of_here|vm_compute; apply not_elem_of_nil].
  - apply (Hin [ {| path := ["a"]; actual := VNumber 1%float; expected := VUndefined |} ]).
    + discriminate.
    + vm_compute. reflexivity.
Defined.

(** *** Comparing a value with itself *)

(** Without identity there is no guard: the traversal of two distinct cyclic
    objects never comes back. *)
Lemma diff_two_cycles_diverges (depth : nat) (path : list string) :
  diff depth two_cycles_heap (VObject 1) (VObject 2) path = None.
Proof.
  revert path. induction depth as [|depth IH]; intros path; [done|].
  change (diff (S depth) two_cycles_heap (VObject 1) (VObject 2) path) with
    (match diff depth two_cycles_heap (VObject 1) (VObject 2) (path ++ ["self"]) with
     | None => None
     | Some ds => Some (ds ++ [])
     end).
  by rewrite IH.
Qed.

(** C10, as stated, fails at [NaN]: [NaN === NaN] is false, neither operand
    is an object, so [diff(NaN, NaN)] yields a difference and
    [deepEqual(NaN, NaN)] raises; no depth makes it return. *)
Lemma deepEqual_NaN_NaN_raises :
  deepEqual 1 ∅ (VNumber nan) (VNumber nan)
  = Some (Throws (not_deeply_equal (VNumber nan) (VNumber nan)
                    [ {| path := []; actual := VNumber nan; expected := VNumber nan |} ]))
  /\ ~ (exists depth, deepEqual depth ∅ (VNumber nan) (VNumber nan) = Some (Returns tt)).
Proof.
  split; [vm_compute; reflexivity|].
  intros [[|depth] H]; vm_compute in H; discriminate H.
Qed.

(** C10, amended. For every value [x] other than [NaN], in every heap, cyclic
    or not, [assert.deepEqual(x, x)] returns without raising as soon as one
    frame is available: [diff] stops at [a === b] before it reads a key, and
    the list of differences is empty. *)
Theorem deepEqual_same_value (depth : nat) (h : heap) (x : value) :
  is_NaN x = false ->
  diff (S depth) h x x [] = Some [] /\
  deepEqual (S depth) h x x = Some (Returns tt).
Proof.
  intros Hx. pose proof (strict_equal_refl x Hx) as Heq.
  assert (diff (S depth) h x x [] = Some []) as Hd by by apply diff_strict_equal.
  split; [exact Hd|]. unfold deepEqual. by rewrite Hd.
Qed.

Lemma deepEqual_same_value_witness :
  is_NaN (VObject 1) = false /\
  diff 1 cyclic_heap (VObject 1) (VObject 1) [] = Some [] /\
  deepEqual 1 cyclic_heap (VObject 1) (VObject 1) = Some (Returns tt).
Proof.
  split; [reflexivity|].
  apply (deepEqual_same_value 0 cyclic_heap (VObject 1)). reflexivity.
Defined.

End AssertFacts.

(* ===================================================================== *)
(** ** Facts about the runner *)
(* ===================================================================== *)

Module RunnerFacts.
Import JS Assert Console Text Runner.

(** *** Vocabulary *)

(** The entry of [testResults] a test case gives rise to. *)
Definition result_of (t : TestCase) : RunResult :=
  match fn t with
  | Fulfilled => mkRunResult (name t) true None
  | Rejected error => mkRunResult (name t) false (Some error)
  end.

(** Whether the body of a test case raises. *)
Definition raises (t : TestCase) : bool :=
  match fn t with
  | Fulfilled => false
  | Rejected _ => true
  end.

Definition completes (t : TestCase) : bool := negb (raises t).


Definition is_settle (rid : nat) (ev : event) : bool :=
  match ev with
  | Settle r => bool_decide (r = rid)
  | _ => false
  end.

(** How many times the call awaited by run [rid] settles in [evs]. *)
Definition count_settles (rid : nat) (evs : list event) : nat :=
  length (filter (fun ev => is_settle rid ev = true) evs).

Definition is_register (ev : event) : bool :=
  match ev with
  | Register _ => true
  | _ => false
  end.

Definition awaiting (st : RunStatus) : bool :=
  match st with
  | Awaiting _ _ => true
  | Done _ => false
  end.

(** No run other than [rid] is suspended, for the runs numbered from [i]. *)
Fixpoint others_done (rid i : nat) (sts : list RunStatus) : bool :=
  match sts with
  | [] => true
  | st :: sts' =>
      (bool_decide (i = rid) || negb (awaiting st)) && others_done rid (S i) sts'
  end.

(** Run [rid] has the runner to itself while [evs] happen: in the world
    before, between and after them no other call of [runPendingTests] is
    suspended at its [await]. *)
Fixpoint exclusive (rid : nat) (w : World) (evs : list event) : bool :=
  others_done rid 0 (runs w) &&
  match evs with
  | [] => true
  | ev :: evs' => exclusive rid (step w ev) evs'
  end.

(** The status of a run of [batch] after [k] of its bodies have settled. *)
Definition status_after (batch : list TestCase) (k : nat) (st : RunStatus) : Prop :=
  match drop k batch with
  | t :: rest => st = Awaiting t rest
  | [] => exists s, st = Done s
  end.

(** What the runner holds while a run of [batch], numbered [rid], has it to
    itself and [k] bodies have settled. *)
Record run_state (batch : list TestCase) (rid k : nat) (w : World) : Prop := {
  rs_bound : k <= length batch;
  rs_results : testResults (runner (page w)) = result_of <$> take k batch;
  rs_passed : passed (runner (page w)) = length (filter (fun t => completes t = true) (take k batch));
  rs_failed : failed (runner (page w)) = length (filter (fun t => raises t = true) (take k batch));
  rs_total : total (runner (page w)) = length batch;
  rs_status : exists st, runs w !! rid = Some st /\ status_after batch k st;
}.

(** Test [A], whose body completes, and test [B], whose body raises. *)
Definition tA : TestCase := mkTestCase "A" Fulfilled.
Definition tB : TestCase := mkTestCase "B" (Rejected (ThrownOther "boom")).

(** A page in which [A] was registered before [DOMContentLoaded], the run
    scheduled then has begun and waits for the body of [A], and [B] has been
    registered in the meantime, which schedules a run of its own. *)
Definition late_registration : World :=
  exec fresh_world [Register tA; DOMContentLoaded; Timeout 0; Register tB].





(** The page with ["a+b"] and ["bad"] registered, the second raising the
    assertion error [e]. *)
Definition scenario_world (e : AssertionError) (stack : string) : World :=
  exec fresh_world
    [ Register (mkTestCase "a+b" Fulfilled);
      Register (mkTestCase "bad" (Rejected (ThrownAssertion e stack))) ].

(** The page with [A] and [B] registered, in this order. *)
Definition two_registered : World := exec fresh_world [Register tA; Register tB].

(** The page with [B] and [A] registered, the raising body first. *)
Definition raising_first : World := exec fresh_world [Register tB; Register tA].

(** The page as the loop of [runPendingTests] finds it. *)
Definition prepared (n : nat) (p : Page) : Page :=
  with_runner (set_testQueue []) (with_runner (set_total n) (start p)).

(** *** What each method leaves alone *)

Lemma logSummary_runner (p : Page) : runner (fst (logSummary p)) = runner p.
Proof.
  unfold logSummary. destruct (log_results (testResults (runner p))) as [cs ok].
  destruct ok; simpl; [|done]. by case_bool_decide.
Qed.

Lemma scheduleAutoRun_runner (p : Page) :
  runner (scheduleAutoRun p) = set_autoRunScheduled true (runner p).
Proof.
  unfold scheduleAutoRun. destruct (autoRunScheduled (runner p)) eqn:E; [|done].
  destruct p as [[] ]; simpl in *. by rewrite E.
Qed.

Lemma enqueueTest_runner (t : TestCase) (p : Page) :
  exists b,
    runner (enqueueTest t p)
    = set_autoRunScheduled b (set_testQueue (testQueue (runner p) ++ [t]) (runner p)).
Proof.
  unfold enqueueTest. simpl.
  destruct (domContentLoaded (runner p)).
  - rewrite scheduleAutoRun_runner. by exists true.
  - exists (autoRunScheduled (runner p)). by destruct p as [[] ].
Qed.

Lemma begin_empty (p : Page) :
  testQueue (runner p) = [] ->
  runPendingTests_begin p = (p, Done (Resolved VUndefined)).
Proof. intros E. unfold runPendingTests_begin. by rewrite E. Qed.

Lemma begin_nonempty (p : Page) (t : TestCase) (rest : list TestCase) :
  testQueue (runner p) = t :: rest ->
  exists p',
    runPendingTests_begin p = (p', Awaiting t rest) /\
    runner p' = {| passed := 0; failed := 0; total := S (length rest);
                   startTime := clock p; testResults := []; testQueue := [];
                   autoRunScheduled := autoRunScheduled (runner p);
                   domContentLoaded := domContentLoaded (runner p) |}.
Proof.
  intros E. unfold runPendingTests_begin. rewrite E. simpl. rewrite E.
  eexists. split; [reflexivity|]. simpl. by rewrite E.
Qed.

Lemma begin_queue (p : Page) :
  testQueue (runner (fst (runPendingTests_begin p))) = [].
Proof.
  destruct (testQueue (runner p)) as [|t rest] eqn:E.
  - by rewrite begin_empty.
  - destruct (begin_nonempty p t rest E) as (p' & -> & Hr). simpl. by rewrite Hr.
Qed.

(** *** One run at a time *)

Lemma others_done_spec (rid i : nat) (sts : list RunStatus) :
  others_done rid i sts = true <->
  forall j st, sts !! j = Some st -> awaiting st = true -> i + j = rid.
Proof.
  revert i. induction sts as [|st0 sts IH]; intros i; simpl.
  - split; [|done]. intros _ j st H. by rewrite lookup_nil in H.
  - rewrite andb_true_iff, IH. split.
    + intros [H0 Hrest] [|j] st; simpl.
      * intros [= ->] Haw. rewrite Haw in H0. simpl in H0.
        rewrite orb_false_r in H0. apply bool_decide_eq_true in H0. lia.
      * intros Hj Haw. specialize (Hrest j st Hj Haw). lia.
    + intros H. split.
      * destruct (awaiting st0) eqn:Haw; simpl; [|by rewrite orb_true_r].
        rewrite orb_false_r. apply bool_decide_eq_true.
        specialize (H 0 st0 eq_refl Haw). lia.
      * intros j st Hj Haw. specialize (H (S j) st Hj Haw). lia.
Qed.

Lemma exclusive_head (rid : nat) (w : World) (evs : list event) :
  exclusive rid w evs = true -> others_done rid 0 (runs w) = true.
Proof. destruct evs; simpl; rewrite andb_true_iff; tauto. Qed.

Lemma count_settles_cons (rid : nat) (ev : event) (evs : list event) :
  count_settles rid (ev :: evs)
  = (if is_settle rid ev then 1 else 0) + count_settles rid evs.
Proof.
  unfold count_settles. rewrite filter_cons.
  destruct (is_settle rid ev); by case_decide.
Qed.

Section OneRun.
Variable batch : list TestCase.
Variable rid : nat.

Lemma run_state_ext (k : nat) (w w' : World) :
  run_state batch rid k w ->
  testResults (runner (page w')) = testResults (runner (page w)) ->
  passed (runner (page w')) = passed (runner (page w)) ->
  failed (runner (page w')) = failed (runner (page w)) ->
  total (runner (page w')) = total (runner (page w)) ->
  runs w' !! rid = runs w !! rid ->
  run_state batch rid k w'.
Proof.
  intros [] E1 E2 E3 E4 E5. split; [done|congruence..|by rewrite E5].
Qed.

Lemma run_state_invoke (k : nat) (w : World) :
  run_state batch rid k w ->
  others_done rid 0 (runs (invoke w)) = true ->
  run_state batch rid k (invoke w).
Proof.
  intros Hrs Hex. pose proof (rs_status _ _ _ _ Hrs) as (st & Hst & _).
  pose proof (lookup_lt_Some _ _ _ Hst) as Hlt.
  unfold invoke in *.
  destruct (testQueue (runner (page w))) as [|t rest] eqn:E.
  - rewrite (begin_empty _ E) in *.
    eapply run_state_ext; [exact Hrs|done..|]. simpl. by apply lookup_app_l.
  - destruct (begin_nonempty _ t rest E) as (p' & Hb & _). rewrite Hb in Hex.
    simpl in Hex. rewrite others_done_spec in Hex.
    specialize (Hex (length (runs w)) (Awaiting t rest)).
    rewrite lookup_app_r, Nat.sub_diag in Hex by lia.
    specialize (Hex eq_refl eq_refl). lia.
Qed.

Lemma run_state_settle (k : nat) (w : World) (t : TestCase) (rest : list TestCase) :
  run_state batch rid k w ->
  runs w !! rid = Some (Awaiting t rest) ->
  run_state batch rid (S k) (step w (Settle rid)).
Proof.
  intros [Hk Hres Hp Hf Htot (st & Hst & Hstat)] Hrun.
  rewrite Hrun in Hst. injection Hst as <-.
  unfold status_after in Hstat.
  destruct (drop k batch) as [|t' rest'] eqn:Hdrop; [by destruct Hstat|].
  injection Hstat as <- <-.
  assert (batch !! k = Some t) as Hlook.
  { rewrite <- (Nat.add_0_r k), <- lookup_drop, Hdrop. done. }
  pose proof (lookup_lt_Some _ _ _ Hlook) as Hlt.
  pose proof (take_S_r _ _ _ Hlook) as Htake.
  assert (drop (S k) batch = rest) as Hrest.
  { replace (S k) with (k + 1) by lia. by rewrite <- drop_drop, Hdrop. }
  assert (Hrunner : forall p,
    runner p = runner (page w) ->
    testResults (runner (record_outcome t p)) = result_of <$> take (S k) batch /\
    passed (runner (record_outcome t p))
      = length (filter (fun t => completes t = true) (take (S k) batch)) /\
    failed (runner (record_outcome t p))
      = length (filter (fun t => raises t = true) (take (S k) batch)) /\
    total (runner (record_outcome t p)) = length batch).
  { intros p Hp'. rewrite Htake, fmap_app, !filter_app, !length_app.
    unfold record_outcome. simpl. rewrite Hp'.
    destruct (fn t) as [|e] eqn:Efn; simpl; rewrite Hres, Hp, Hf, Htot.
    - assert (result_of t = mkRunResult (name t) true None) as ->
        by (unfold result_of; by rewrite Efn).
      rewrite (filter_cons_True (fun t => completes t = true))
        by (unfold completes, raises; by rewrite Efn).
      rewrite (filter_cons_False (fun t => raises t = true))
        by (unfold raises; by rewrite Efn).
      rewrite !filter_nil. simpl. repeat split; lia.
    - assert (result_of t = mkRunResult (name t) false (Some e)) as ->
        by (unfold result_of; by rewrite Efn).
      rewrite (filter_cons_False (fun t => completes t = true))
        by (unfold completes, raises; by rewrite Efn).
      rewrite (filter_cons_True (fun t => raises t = true))
        by (unfold raises; by rewrite Efn).
      rewrite !filter_nil. simpl. repeat split; lia. }
  cbn [step]. rewrite Hrun. unfold runPendingTests_resume.
  destruct (Hrunner (page w) eq_refl) as (R1 & R2 & R3 & R4).
  destruct rest as [|next rest''].
  - destruct (logSummary (record_outcome t (page w))) as [p2 s2] eqn:Hlog.
    pose proof (logSummary_runner (record_outcome t (page w))) as Hlr.
    rewrite Hlog in Hlr. cbn [fst] in Hlr.
    split; cbn [page runs]; rewrite ?Hlr; try done; try lia.
    exists (Done s2). split.
    + apply list_lookup_insert_eq. by eapply lookup_lt_Some.
    + unfold status_after. rewrite Hrest. by exists s2.
  - split; cbn [page runs]; try done; try lia.
    exists (Awaiting next rest''). split.
    + apply list_lookup_insert_eq. by eapply lookup_lt_Some.
    + unfold status_after. by rewrite Hrest.
Qed.

Lemma run_state_step (k : nat) (w : World) (ev : event) :
  run_state batch rid k w ->
  others_done rid 0 (runs w) = true ->
  others_done rid 0 (runs (step w ev)) = true ->
  run_state batch rid
    (Nat.min (length batch) (k + (if is_settle rid ev then 1 else 0)))
    (step w ev).
Proof.
  intros Hrs Hex Hex'. pose proof (rs_bound _ _ _ _ Hrs) as Hk.
  destruct ev as [t| | |i| |r|ms]; simpl is_settle;
    rewrite ?Nat.add_0_r, ?(Nat.min_r _ _ Hk).
  - (* Register *)
    destruct (enqueueTest_runner t (page w)) as [b Hb].
    eapply run_state_ext; [exact Hrs|simpl; by rewrite Hb..|done].
  - (* DOMContentLoaded *)
    eapply run_state_ext; [exact Hrs|simpl; by rewrite scheduleAutoRun_runner..|done].
  - (* Load *)
    eapply run_state_ext; [exact Hrs|done..].
  - (* Timeout *)
    simpl in *. destruct (timers (page w) !! i) as [[]|]; [| |done].
    + apply run_state_invoke; [|done].
      eapply run_state_ext; [exact Hrs|done..].
    + apply run_state_invoke; [|done].
      eapply run_state_ext; [exact Hrs|done..].
  - (* Invoke *)
    by apply run_state_invoke.
  - (* Settle *)
    destruct (runs w !! r) as [[t rest|s]|] eqn:Hr.
    + assert (r = rid) as ->.
      { rewrite others_done_spec in Hex. by apply (Hex r _ Hr). }
      rewrite bool_decide_eq_true_2 by done.
      pose proof (run_state_settle k w t rest Hrs Hr) as Hnext.
      pose proof (rs_bound _ _ _ _ Hnext).
      by replace (Nat.min (length batch) (k + 1)) with (S k) by lia.
    + assert (step w (Settle r) = w) as -> by (simpl; by rewrite Hr).
      case_bool_decide as Heq; [|by rewrite Nat.add_0_r, Nat.min_r].
      subst r. destruct Hrs as [? ? ? ? ? (st & Hst & Hstat)].
      rewrite Hr in Hst. injection Hst as <-. unfold status_after in Hstat.
      destruct (drop k batch) eqn:Hdrop; [|done].
      apply drop_nil_inv in Hdrop.
      replace (Nat.min (length batch) (k + 1)) with k by lia.
      split; try done. exists (Done s). split; [done|].
      unfold status_after. rewrite drop_ge by lia. by exists s.
    + assert (step w (Settle r) = w) as -> by (simpl; by rewrite Hr).
      case_bool_decide as Heq; [|by rewrite Nat.add_0_r, Nat.min_r].
      subst r. destruct Hrs as [? ? ? ? ? (st & Hst & Hstat)]. congruence.
  - (* Tick *)
    eapply run_state_ext; [exact Hrs|done..].
Qed.

(** While run [rid] has the runner to itself, the runner holds the results
    and the counts of the bodies that have settled so far, and the run waits
    for the next one or is done. *)
Lemma run_state_exec (evs : list event) (k : nat) (w : World) :
  run_state batch rid k w ->
  exclusive rid w evs = true ->
  run_state batch rid (Nat.min (length batch) (k + count_settles rid evs))
    (exec w evs).
Proof.
  revert k w. induction evs as [|ev evs IH]; intros k w Hrs Hex.
  - pose proof (rs_bound _ _ _ _ Hrs). simpl.
    replace (Nat.min _ _) with k by (unfold count_settles; simpl; lia). done.
  - simpl in Hex. apply andb_true_iff in Hex as [Hw Hex].
    pose proof (exclusive_head _ _ _ Hex) as Hw'.
    pose proof (run_state_step k w ev Hrs Hw Hw') as Hstep.
    specialize (IH _ _ Hstep Hex). rewrite count_settles_cons.
    replace (Nat.min (length batch) (k + ((if is_settle rid ev then 1 else 0)
                                          + count_settles rid evs)))
      with (Nat.min (length batch)
              (Nat.min (length batch) (k + (if is_settle rid ev then 1 else 0))
               + count_settles rid evs)) by lia.
    exact IH.
Qed.

End OneRun.

(** *** The progress of a run *)

Lemma status_after_awaiting (batch : list TestCase) (k : nat)
    (t : TestCase) (rest : list TestCase) :
  status_after batch k (Awaiting t rest) ->
  k < length batch /\ drop k batch = t :: rest /\ drop (S k) batch = rest.
Proof.
  unfold status_after. destruct (drop k batch) as [|t' rest'] eqn:Hdrop.
  - by intros [s ?].
  - intros [= <- <-]. split; [|split; [done|]].
    + destruct (decide (k < length batch)); [done|].
      rewrite drop_ge in Hdrop by lia. done.
    + replace (S k) with (k + 1) by lia. by rewrite <- drop_drop, Hdrop.
Qed.

Lemma status_after_done (batch : list TestCase) (k : nat) (s : settled) :
  k <= length batch -> status_after batch k (Done s) -> k = length batch.
Proof.
  unfold status_after. intros Hk. destruct (drop k batch) eqn:Hdrop; [|done].
  intros _. apply drop_nil_inv in Hdrop. lia.
Qed.

Lemma invoke_runs_lookup (w : World) (rid : nat) (st : RunStatus) :
  runs w !! rid = Some st -> runs (invoke w) !! rid = Some st.
Proof.
  intros Hst. unfold invoke. destruct (runPendingTests_begin (page w)).
  cbn [runs]. rewrite lookup_app_l; [done|]. by eapply lookup_lt_Some.
Qed.

(** How far a run has come depends on the settling of the bodies it awaits
    and on nothing else: whatever the bodies do and whatever else happens,
    each settling moves the run to the next body of its batch, or ends it
    after the last. *)
Lemma status_step (batch : list TestCase) (rid k : nat) (w : World) (ev : event)
    (st : RunStatus) :
  k <= length batch ->
  runs w !! rid = Some st ->
  status_after batch k st ->
  exists st',
    runs (step w ev) !! rid = Some st' /\
    status_after batch
      (Nat.min (length batch) (k + (if is_settle rid ev then 1 else 0))) st'.
Proof.
  intros Hk Hst Hstat.
  destruct ev as [t| | |i| |r|ms]; cbn [is_settle step];
    rewrite ?Nat.add_0_r, ?(Nat.min_r _ _ Hk); try (by exists st).
  - destruct (timers (page w) !! i) as [[]|]; [| |by exists st];
      exists st; (split; [by apply invoke_runs_lookup|done]).
  - exists st. split; [by apply invoke_runs_lookup|done].
  - case_bool_decide as Heq.
    + subst r. rewrite Hst. destruct st as [t rest|s].
      * apply status_after_awaiting in Hstat as (Hlt & Hdrop & Hrest).
        replace (Nat.min (length batch) (k + 1)) with (S k) by lia.
        unfold runPendingTests_resume. destruct rest as [|next rest'].
        -- destruct (logSummary (record_outcome t (page w))) as [p2 s2].
           exists (Done s2). cbn [runs]. split.
           ++ apply list_lookup_insert_eq. by eapply lookup_lt_Some.
           ++ unfold status_after. rewrite Hrest. by exists s2.
        -- exists (Awaiting next rest'). cbn [runs]. split.
           ++ apply list_lookup_insert_eq. by eapply lookup_lt_Some.
           ++ unfold status_after. by rewrite Hrest.
      * pose proof (status_after_done _ _ _ Hk Hstat) as ->.
        replace (Nat.min _ _) with (length batch) by lia. by exists (Done s).
    + rewrite Nat.add_0_r, (Nat.min_r _ _ Hk).
      destruct (runs w !! r) as [[t rest|s]|] eqn:Hr; try (by exists st).
      destruct (runPendingTests_resume t rest (page w)) as [p2 st2].
      exists st. cbn [runs]. split; [|done].
      rewrite list_lookup_insert_ne by done. done.
Qed.

Lemma status_exec (batch : list TestCase) (rid : nat) (evs : list event)
    (k : nat) (w : World) (st : RunStatus) :
  k <= length batch ->
  runs w !! rid = Some st ->
  status_after batch k st ->
  exists st',
    runs (exec w evs) !! rid = Some st' /\
    status_after batch (Nat.min (length batch) (k + count_settles rid evs)) st'.
Proof.
  revert k w st. induction evs as [|ev evs IH]; intros k w st Hk Hst Hstat.
  - exists st. split; [done|].
    replace (Nat.min _ _) with k by (unfold count_settles; simpl; lia). done.
  - destruct (status_step batch rid k w ev st Hk Hst Hstat) as (st1 & Hst1 & Hstat1).
    destruct (IH _ (step w ev) st1 (Nat.le_min_l _ _) Hst1 Hstat1)
      as (st' & Hst' & Hstat').
    exists st'. split; [exact Hst'|]. rewrite count_settles_cons.
    replace (Nat.min (length batch) (k + ((if is_settle rid ev then 1 else 0)
                                          + count_settles rid evs)))
      with (Nat.min (length batch)
              (Nat.min (length batch) (k + (if is_settle rid ev then 1 else 0))
               + count_settles rid evs)) by lia.
    exact Hstat'.
Qed.

(** A call of [runPendingTests] on a queue that is not empty starts a run of
    that queue. *)
Lemma run_state_begin (w : World) :
  testQueue (runner (page w)) <> [] ->
  run_state (testQueue (runner (page w))) (length (runs w)) 0 (invoke w).
Proof.
  intros Hne. destruct (testQueue (runner (page w))) as [|t rest] eqn:E; [done|].
  destruct (begin_nonempty _ t rest E) as (p' & Hb & Hr).
  unfold invoke. rewrite Hb. split; simpl; rewrite ?Hr; try done; [lia|].
  exists (Awaiting t rest). split; [|done].
  rewrite lookup_app_r, Nat.sub_diag by lia. done.
Qed.

(** *** The results of a run *)

Lemma take_min_length {A : Type} (l : list A) (n : nat) :
  take (Nat.min (length l) n) l = take n l.
Proof.
  destruct (decide (n <= length l)).
  - by rewrite Nat.min_r.
  - rewrite Nat.min_l by lia. by rewrite !take_ge by lia.
Qed.

Lemma result_name_of (ts : list TestCase) :
  result_name <$> (result_of <$> ts) = name <$> ts.
Proof.
  rewrite <- list_fmap_compose. apply list_fmap_ext. intros _ t _.
  unfold result_of. simpl. by destruct (fn t).
Qed.

Lemma result_passed_of (ts : list TestCase) :
  result_passed <$> (result_of <$> ts) = completes <$> ts.
Proof.
  rewrite <- list_fmap_compose. apply list_fmap_ext. intros _ t _.
  unfold result_of, completes, raises. simpl. by destruct (fn t).
Qed.

(** C5, as stated, fails when a run begins while another is suspended. In
    [late_registration] the queue holds the batch [[B]]; the scheduled timer
    fires and starts its run, numbered 1, while run 0 still waits for [A];
    then [A] settles, then [B]. Run 1 ends, and [testResults] holds two
    entries for its batch of one, the first of them for [A]. *)
Lemma overlapping_runs_mix_results :
  testQueue (runner (page late_registration)) = [tB] /\
  length (runs late_registration) = 1 /\
  runs (exec late_registration [Timeout 0; Settle 0; Settle 1]) !! 1
  = Some (Done (Resolved (VBool false))) /\
  testResults (runner (page (exec late_registration [Timeout 0; Settle 0; Settle 1])))
  = [result_of tA; result_of tB].
Proof. vm_compute. repeat split; reflexivity. Qed.

(** C5, amended. For a batch of N registered tests taken by a call of
    [runPendingTests], as long as no other call of [runPendingTests] is
    suspended while the events [evs] happen: [testResults] holds the results
    of the bodies settled so far, in registration order, whether or not
    registrations, timers, document events or time come in between; and once
    the awaited bodies have settled N times the run is over, [testResults]
    has exactly N entries, and they carry the names of the batch in
    registration order, each passed exactly when its body completed. *)
Theorem results_in_registration_order (w : World) (evs : list event) :
  testQueue (runner (page w)) <> [] ->
  exclusive (length (runs w)) (invoke w) evs = true ->
  testResults (runner (page (exec (invoke w) evs)))
  = result_of <$> take (count_settles (length (runs w)) evs)
                       (testQueue (runner (page w))) /\
  (length (testQueue (runner (page w))) <= count_settles (length (runs w)) evs ->
   (exists s, runs (exec (invoke w) evs) !! length (runs w) = Some (Done s)) /\
   length (testResults (runner (page (exec (invoke w) evs))))
   = length (testQueue (runner (page w))) /\
   result_name <$> testResults (runner (page (exec (invoke w) evs)))
   = name <$> testQueue (runner (page w)) /\
   result_passed <$> testResults (runner (page (exec (invoke w) evs)))
   = completes <$> testQueue (runner (page w))).
Proof.
  intros Hne Hex.
  pose proof (run_state_exec _ _ evs 0 _ (run_state_begin w Hne) Hex) as Hrs.
  simpl in Hrs. destruct Hrs as [_ Hres _ _ _ (st & Hst & Hstat)].
  rewrite take_min_length in Hres.
  split; [exact Hres|]. intros Hall.
  rewrite Nat.min_l in Hstat by done.
  unfold status_after in Hstat. rewrite drop_all in Hstat.
  destruct Hstat as [s ->].
  rewrite Hres, take_ge by done.
  rewrite length_fmap, result_name_of, result_passed_of. eauto.
Qed.

Lemma results_in_registration_order_witness :
  (exists s, runs (exec (invoke two_registered)
                     [Settle 0; Register tA; Tick 5; Settle 0]) !! 0
             = Some (Done s)) /\
  length (testResults (runner (page (exec (invoke two_registered)
                                       [Settle 0; Register tA; Tick 5; Settle 0]))))
  = 2 /\
  result_name <$> testResults (runner (page (exec (invoke two_registered)
                                       [Settle 0; Register tA; Tick 5; Settle 0])))
  = ["A"; "B"] /\
  result_passed <$> testResults (runner (page (exec (invoke two_registered)
                                       [Settle 0; Register tA; Tick 5; Settle 0])))
  = [true; false].
Proof.
  destruct (results_in_registration_order two_registered
              [Settle 0; Register tA; Tick 5; Settle 0]) as [_ Hall].
  - vm_compute. discriminate.
  - vm_compute. reflexivity.
  - apply Hall. vm_compute. apply le_n.
Defined.

(** *** Failures and counters *)

(** C6, as stated, fails when a run begins while another is suspended. From
    [late_registration] the timer starts run 1 on the batch [[B]], [B]
    settles and raises, then [A] settles and completes. Run 0, whose batch
    [[A]] holds no body that raises, ends with [failed] at 1 and returns
    [false]. *)
Lemma overlapping_runs_mix_counters :
  runs late_registration !! 0 = Some (Awaiting tA []) /\
  length (filter (fun t => raises t = true) [tA]) = 0 /\
  runs (exec late_registration [Timeout 0; Settle 1; Settle 0]) !! 0
  = Some (Done (Resolved (VBool false))) /\
  failed (runner (page (exec late_registration [Timeout 0; Settle 1; Settle 0]))) = 1.
Proof. vm_compute. repeat split; reflexivity. Qed.

(** C6, amended. For a batch taken by a call of [runPendingTests]: whatever
    its bodies do and whatever else happens, after any number of them have
    settled, raising or not, the run waits for the next body of the batch, if
    there is one, and once they have settled as many times as the batch is
    long the run is over. As long as no other call of [runPendingTests] is
    suspended while the events [evs] happen, [passed] counts the bodies
    settled so far that completed and [failed] those that raised; at the end
    of the run [failed] is the number of bodies of the batch that raised and
    [passed] the number that completed. *)
Theorem failures_counted_batch_continues (w : World) (evs : list event) :
  testQueue (runner (page w)) <> [] ->
  (forall t rest,
     drop (count_settles (length (runs w)) evs) (testQueue (runner (page w)))
     = t :: rest ->
     runs (exec (invoke w) evs) !! length (runs w) = Some (Awaiting t rest)) /\
  (length (testQueue (runner (page w))) <= count_settles (length (runs w)) evs ->
   exists s, runs (exec (invoke w) evs) !! length (runs w) = Some (Done s)) /\
  (exclusive (length (runs w)) (invoke w) evs = true ->
   passed (runner (page (exec (invoke w) evs)))
   = length (filter (fun t => completes t = true)
               (take (count_settles (length (runs w)) evs)
                  (testQueue (runner (page w))))) /\
   failed (runner (page (exec (invoke w) evs)))
   = length (filter (fun t => raises t = true)
               (take (count_settles (length (runs w)) evs)
                  (testQueue (runner (page w))))) /\
   (length (testQueue (runner (page w))) <= count_settles (length (runs w)) evs ->
    passed (runner (page (exec (invoke w) evs)))
    = length (filter (fun t => completes t = true) (testQueue (runner (page w)))) /\
    failed (runner (page (exec (invoke w) evs)))
    = length (filter (fun t => raises t = true) (testQueue (runner (page w)))))).
Proof.
  intros Hne.
  pose proof (run_state_begin w Hne) as Hbegin.
  destruct (rs_status _ _ _ _ Hbegin) as (st0 & Hst0 & Hstat0).
  destruct (status_exec _ _ evs 0 _ st0 (Nat.le_0_l _) Hst0 Hstat0)
    as (st & Hst & Hstat).
  simpl in Hstat. split; [|split].
  - intros t rest Hdrop.
    assert (count_settles (length (runs w)) evs
            < length (testQueue (runner (page w)))) as Hlt.
    { destruct (decide (count_settles (length (runs w)) evs
                        < length (testQueue (runner (page w))))); [done|].
      rewrite drop_ge in Hdrop by lia. done. }
    rewrite Nat.min_r in Hstat by lia.
    unfold status_after in Hstat. rewrite Hdrop in Hstat. by subst st.
  - intros Hall. rewrite Nat.min_l in Hstat by done.
    unfold status_after in Hstat. rewrite drop_all in Hstat.
    destruct Hstat as [s ->]. by exists s.
  - intros Hex.
    pose proof (run_state_exec _ _ evs 0 _ Hbegin Hex) as Hrs.
    simpl in Hrs. destruct Hrs as [_ _ Hp Hf _ _].
    rewrite take_min_length in Hp, Hf.
    split; [exact Hp|]. split; [exact Hf|].
    intros Hall. by rewrite Hp, Hf, take_ge by done.
Qed.

Lemma failures_counted_batch_continues_witness :
  runs (exec (invoke raising_first) [Settle 0; Load]) !! 0 = Some (Awaiting tA []) /\
  (exists s, runs (exec (invoke raising_first) [Settle 0; Load; Settle 0]) !! 0
             = Some (Done s)) /\
  passed (runner (page (exec (invoke raising_first) [Settle 0; Load; Settle 0]))) = 1 /\
  failed (runner (page (exec (invoke raising_first) [Settle 0; Load; Settle 0]))) = 1.
Proof.
  split.
  - destruct (failures_counted_batch_continues raising_first [Settle 0; Load])
      as (Hnext & _ & _).
    + vm_compute. discriminate.
    + apply (Hnext tA []). vm_compute. reflexivity.
  - destruct (failures_counted_batch_continues raising_first
                [Settle 0; Load; Settle 0]) as (_ & Hdone & Hcount).
    + vm_compute. discriminate.
    + split; [apply Hdone; vm_compute; apply le_n|].
      destruct Hcount as (_ & _ & Hall); [vm_compute; reflexivity|].
      apply Hall. vm_compute. apply le_n.
Defined.

(** *** A run with nothing in between *)

Lemma run_tests_app (ts : list TestCase) (t : TestCase) (p : Page) :
  run_tests (ts ++ [t]) p = record_outcome t (run_tests ts p).
Proof. revert p. induction ts as [|t' ts IH]; intros p; simpl; [done|apply IH]. Qed.

(** The segments of [runPendingTests], run one after the other as the call
    it awaits settles, make up [runPendingTests]. *)
Lemma settle_all (rest : list TestCase) (t : TestCase) (p : Page)
    (before : list RunStatus) :
  exec {| page := p; runs := before ++ [Awaiting t rest] |}
       (replicate (S (length rest)) (Settle (length before)))
  = {| page := fst (logSummary (run_tests (t :: rest) p));
       runs := before ++ [Done (snd (logSummary (run_tests (t :: rest) p)))] |}.
Proof.
  revert t p. induction rest as [|next rest IH]; intros t p.
  - simpl. rewrite lookup_app_r, Nat.sub_diag by lia. simpl.
    destruct (logSummary (record_outcome t p)) as [p2 s2]. simpl.
    by rewrite insert_app_r_alt, Nat.sub_diag by lia.
  - change (replicate (S (length (next :: rest))) (Settle (length before)))
      with (Settle (length before)
            :: replicate (S (length rest)) (Settle (length before))).
    change (run_tests (t :: next :: rest) p)
      with (run_tests (next :: rest) (record_outcome t p)).
    rewrite <- IH. unfold exec at 1. cbn [foldl]. f_equal.
    cbn [step runs page]. rewrite lookup_app_r, Nat.sub_diag by lia.
    cbn [lookup list_lookup runPendingTests_resume].
    by rewrite insert_app_r_alt, Nat.sub_diag by lia.
Qed.

Lemma runPendingTests_nonempty (p : Page) (t : TestCase) (rest : list TestCase) :
  testQueue (runner p) = t :: rest ->
  runPendingTests p
  = logSummary (run_tests (t :: rest) (prepared (S (length rest)) p)).
Proof.
  intros E. unfold runPendingTests. rewrite E. cbn [length].
  rewrite bool_decide_eq_false_2 by done. cbv zeta.
  assert (testQueue (runner (with_runner
            (fun this => set_total (length (testQueue this)) this) (start p)))
          = t :: rest) as -> by exact E.
  unfold prepared. do 3 f_equal. unfold with_runner. simpl. by rewrite E.
Qed.

Lemma run_uninterrupted (w : World) :
  exec (invoke w)
       (replicate (length (testQueue (runner (page w)))) (Settle (length (runs w))))
  = {| page := fst (runPendingTests (page w));
       runs := runs w ++ [Done (snd (runPendingTests (page w)))] |}.
Proof.
  destruct (testQueue (runner (page w))) as [|t rest] eqn:E.
  - unfold invoke, runPendingTests. rewrite (begin_empty _ E), E. done.
  - rewrite (runPendingTests_nonempty _ t rest E). unfold invoke.
    assert (runPendingTests_begin (page w)
            = (prepared (S (length rest)) (page w), Awaiting t rest)) as ->.
    { unfold runPendingTests_begin. rewrite E. cbn [length].
      rewrite bool_decide_eq_false_2 by done. cbv zeta.
      assert (testQueue (runner (with_runner
                (fun this => set_total (length (testQueue this)) this)
                (start (page w))))
              = t :: rest) as -> by exact E.
      unfold prepared. do 2 f_equal. unfold with_runner. simpl. by rewrite E. }
    apply settle_all.
Qed.

Lemma run_tests_runner (ts : list TestCase) (p : Page) :
  testResults (runner (run_tests ts p)) = testResults (runner p) ++ (result_of <$> ts) /\
  failed (runner (run_tests ts p))
  = failed (runner p) + length (filter (fun t => raises t = true) ts) /\
  passed (runner (run_tests ts p))
  = passed (runner p) + length (filter (fun t => completes t = true) ts).
Proof.
  induction ts as [|t ts IH] using rev_ind.
  - simpl. rewrite app_nil_r. repeat split; lia.
  - rewrite run_tests_app, fmap_app, !filter_app, !length_app.
    destruct IH as (IH1 & IH2 & IH3).
    unfold record_outcome. cbn [runner with_runner].
    destruct (fn t) as [|e] eqn:Efn; cbn [testResults failed passed];
      rewrite IH1, IH2, IH3, <- app_assoc; cbn [fmap list_fmap].
    + assert (result_of t = mkRunResult (name t) true None) as ->
        by (unfold result_of; by rewrite Efn).
      rewrite (filter_cons_True (fun t => completes t = true))
        by (unfold completes, raises; by rewrite Efn).
      rewrite (filter_cons_False (fun t => raises t = true))
        by (unfold raises; by rewrite Efn).
      rewrite !filter_nil. simpl. repeat split; lia.
    + assert (result_of t = mkRunResult (name t) false (Some e)) as ->
        by (unfold result_of; by rewrite Efn).
      rewrite (filter_cons_False (fun t => completes t = true))
        by (unfold completes, raises; by rewrite Efn).
      rewrite (filter_cons_True (fun t => raises t = true))
        by (unfold raises; by rewrite Efn).
      rewrite !filter_nil. simpl. repeat split; lia.
Qed.



(** *** What a run returns *)








(** *** The scenario of two tests *)

(** Registering ["a+b"], whose body completes, and ["bad"], whose body
    raises an [AssertionError], and running: the results are those of the
    two tests in this order, the second with the error raised, and the
    counters are 1 passed, 1 failed, 2 in total; the run returns [false]
    and alerts. *)
Theorem scenario_run (e : AssertionError) (stack : string) :
  testResults (runner (fst (runPendingTests (page (scenario_world e stack)))))
  = [ mkRunResult "a+b" true None;
      mkRunResult "bad" false (Some (ThrownAssertion e stack)) ] /\
  passed (runner (fst (runPendingTests (page (scenario_world e stack))))) = 1 /\
  failed (runner (fst (runPendingTests (page (scenario_world e stack))))) = 1 /\
  total (runner (fst (runPendingTests (page (scenario_world e stack))))) = 2 /\
  snd (runPendingTests (page (scenario_world e stack))) = Resolved (VBool false) /\
  alerts (fst (runPendingTests (page (scenario_world e stack))))
  = [ "❌ 1 of 2 tests failed. See console for details." ].
Proof. repeat split; reflexivity. Qed.

(** *** The queue after a run *)

Lemma step_queue_empty (w : World) (ev : event) :
  is_register ev = false ->
  testQueue (runner (page w)) = [] ->
  testQueue (runner (page (step w ev))) = [].
Proof.
  intros Hev Hq. destruct ev as [t| | |i| |r|ms]; [done|..]; cbn [step].
  - cbn [on_page page]. by rewrite scheduleAutoRun_runner.
  - done.
  - destruct (timers (page w) !! i) as [[]|]; [| |done].
    + unfold invoke.
      match goal with |- context [runPendingTests_begin ?q] =>
        pose proof (begin_queue q) as Hb; destruct (runPendingTests_begin q) end.
      done.
    + unfold invoke.
      match goal with |- context [runPendingTests_begin ?q] =>
        pose proof (begin_queue q) as Hb; destruct (runPendingTests_begin q) end.
      done.
  - unfold invoke. pose proof (begin_queue (page w)) as Hb.
    by destruct (runPendingTests_begin (page w)).
  - destruct (runs w !! r) as [[t rest|s]|]; [|done..].
    unfold runPendingTests_resume. destruct rest as [|next rest'].
    + pose proof (logSummary_runner (record_outcome t (page w))) as Hl.
      destruct (logSummary (record_outcome t (page w))) as [p2 s2].
      cbn [page fst] in *. rewrite Hl. unfold record_outcome.
      cbn [runner with_runner]. by destruct (fn t).
    + cbn [page]. unfold record_outcome. cbn [runner with_runner].
      by destruct (fn t).
  - done.
Qed.

Lemma exec_queue_empty (evs : list event) (w : World) :
  forallb (fun ev => negb (is_register ev)) evs = true ->
  testQueue (runner (page w)) = [] ->
  testQueue (runner (page (exec w evs))) = [].
Proof.
  revert w. induction evs as [|ev evs IH]; intros w Hevs Hq; [done|].
  simpl in Hevs. apply andb_true_iff in Hevs as [Hev Hevs].
  apply negb_true_iff in Hev.
  apply (IH (step w ev) Hevs). by apply step_queue_empty.
Qed.

(** C9. After a call of [runPendingTests], whatever happens next short of a
    registration (settling bodies, timers, document events, further calls,
    time passing), the queue is empty, and a further call of
    [runPendingTests] returns [undefined] and leaves the whole page as it
    is: every field of the runner, the console, the alerts, the timers. *)
Theorem second_run_is_noop (w : World) (evs : list event) :
  forallb (fun ev => negb (is_register ev)) evs = true ->
  testQueue (runner (page (exec (invoke w) evs))) = [] /\
  invoke (exec (invoke w) evs)
  = {| page := page (exec (invoke w) evs);
       runs := runs (exec (invoke w) evs) ++ [Done (Resolved VUndefined)] |}.
Proof.
  intros Hevs.
  assert (testQueue (runner (page (exec (invoke w) evs))) = []) as Hq.
  { apply exec_queue_empty; [done|]. unfold invoke.
    pose proof (begin_queue (page w)) as Hb.
    by destruct (runPendingTests_begin (page w)). }
  split; [exact Hq|]. unfold invoke at 1. by rewrite (begin_empty _ Hq).
Qed.

Lemma second_run_is_noop_witness :
  testQueue (runner (page (exec (invoke two_registered) [Settle 0; Settle 0]))) = [] /\
  invoke (exec (invoke two_registered) [Settle 0; Settle 0])
  = {| page := page (exec (invoke two_registered) [Settle 0; Settle 0]);
       runs := runs (exec (invoke two_registered) [Settle 0; Settle 0])
               ++ [Done (Resolved VUndefined)] |}.
Proof.
  apply (second_run_is_noop two_registered [Settle 0; Settle 0]). reflexivity.
Defined.

End RunnerFacts.

(* ===================================================================== *)
(** ** Facts about the sandbox *)
(* ===================================================================== *)

Module SandboxFacts.
Import JS Assert Sandbox.

(** *** Vocabulary *)

(** What [withSandbox] passes on of the callback's result. *)
Definition passed_on (r : completion value value) : completion value error :=
  match r with
  | Returns v => Returns v
  | Throws e => Throws (Raised e)
  end.

(** The document as the callback finds it: the sandbox made and appended to
    [document.body]. *)
Definition with_sandbox_attached (d : Document) (sandbox : nat) : Document :=
  appendChild (Node (body (fst (make_sandbox d)))) sandbox (fst (make_sandbox d)).

(** A document of three elements, [html] (0), [body] (1) and one element
    (2) in the body, without a sandbox template. *)
Definition small_document : Document :=
  {| parentNode := {[ 0 := TheDocument; 1 := Node 0; 2 := Node 1 ]};
     body := 1; sandboxTemplate := None; settings := ∅; nextId := 3 |}.

(** A callback that moves the sandbox under another element,
    [target.appendChild(sandbox)], and returns. *)
Definition adopt (target : nat) : callback :=
  fun sandbox d => (appendChild (Node target) sandbox d, Returns VUndefined).

(** A callback that appends a new element to the sandbox and raises. *)
Definition fill_and_raise : callback :=
  fun sandbox d =>
    let '(d, el) := createElement d in
    (appendChild (Node sandbox) el d, Throws (VString "boom")).

Lemma not_attached_orphan (d : Document) (id : nat) :
  parentNode d !! id = None -> ~ attached d (Node id).
Proof. intros Hnone Hatt. inversion Hatt; congruence. Qed.

(** When the sandbox template holds no sandbox section, nothing is
    attached: [appendChild(null)] raises before the callback is called. *)
Lemma withSandbox_no_section (fn : callback) (d : Document) :
  snd (make_sandbox d) = None ->
  snd (withSandbox fn d) = Throws TypeError /\
  parentNode (fst (withSandbox fn d)) = parentNode d.
Proof.
  unfold withSandbox, make_sandbox.
  destruct (sandboxTemplate d) as [[]|]; simpl; done.
Qed.

(** C8, as stated, fails for a callback that moves the sandbox: in
    [small_document] the sandbox is node 3; the callback appends it to
    element 2; [document.body.removeChild(sandbox)] then raises
    [NotFoundError], [withSandbox] raises it, and the sandbox is still
    attached to the document, under element 2. *)
Lemma moved_sandbox_stays_attached :
  snd (make_sandbox small_document) = Some 3 /\
  snd (withSandbox (adopt 2) small_document) = Throws NotFoundError /\
  attached (fst (withSandbox (adopt 2) small_document)) (Node 3).
Proof.
  split; [reflexivity|]. split; [vm_compute; reflexivity|].
  apply (attached_child _ 3 (Node 2)); [vm_compute; reflexivity|].
  apply (attached_child _ 2 (Node 1)); [vm_compute; reflexivity|].
  apply (attached_child _ 1 (Node 0)); [vm_compute; reflexivity|].
  apply (attached_child _ 0 TheDocument); [vm_compute; reflexivity|].
  apply attached_document.
Qed.

(** C8, amended. [withSandbox] hands the callback a sandbox that is a child
    of [document.body]. For every callback that settles and leaves the
    sandbox a child of [document.body], or without a parent, the sandbox is
    not attached to the document once [withSandbox] has returned or raised,
    whether the callback returned or raised; in the first case [withSandbox]
    ends as the callback did, in the second with the [NotFoundError] of
    [removeChild]. *)
Theorem withSandbox_detaches (fn : callback) (d : Document) (sandbox : nat) :
  snd (make_sandbox d) = Some sandbox ->
  parentNode (fst (fn sandbox (with_sandbox_attached d sandbox))) !! sandbox
  = Some (Node (body (fst (fn sandbox (with_sandbox_attached d sandbox))))) \/
  parentNode (fst (fn sandbox (with_sandbox_attached d sandbox))) !! sandbox
  = None ->
  parentNode (with_sandbox_attached d sandbox) !! sandbox
  = Some (Node (body (with_sandbox_attached d sandbox))) /\
  ~ attached (fst (withSandbox fn d)) (Node sandbox) /\
  (parentNode (fst (fn sandbox (with_sandbox_attached d sandbox))) !! sandbox
   = Some (Node (body (fst (fn sandbox (with_sandbox_attached d sandbox))))) ->
   snd (withSandbox fn d)
   = passed_on (snd (fn sandbox (with_sandbox_attached d sandbox)))) /\
  (parentNode (fst (fn sandbox (with_sandbox_attached d sandbox))) !! sandbox
   = None ->
   snd (withSandbox fn d) = Throws NotFoundError).
Proof.
  unfold with_sandbox_attached, withSandbox.
  destruct (make_sandbox d) as [d0 o]. cbn [fst snd]. intros -> Hleft.
  split; [apply lookup_insert_eq|].
  destruct (fn sandbox (appendChild (Node (body d0)) sandbox d0)) as [d2 r].
  cbn [fst snd] in *. unfold removeChild.
  destruct Hleft as [Hbody | Hnone].
  - rewrite Hbody, bool_decide_eq_true_2 by done. cbn [fst snd].
    split; [|split; [done|congruence]].
    apply not_attached_orphan. apply lookup_delete_eq.
  - rewrite Hnone. cbn [fst snd].
    split; [by apply not_attached_orphan|]. split; [congruence|done].
Qed.

Lemma withSandbox_detaches_witness :
  parentNode (with_sandbox_attached small_document 3) !! 3 = Some (Node 1) /\
  ~ attached (fst (withSandbox fill_and_raise small_document)) (Node 3) /\
  snd (withSandbox fill_and_raise small_document) = Throws (Raised (VString "boom")).
Proof.
  destruct (withSandbox_detaches fill_and_raise small_document 3)
    as (Hin & Hout & Hres & _).
  - reflexivity.
  - left. vm_compute. reflexivity.
  - split; [exact Hin|]. split; [exact Hout|].
    apply Hres. vm_compute. reflexivity.
Defined.

End SandboxFacts.

(* ===================================================================== *)
(** ** Facts about the harness *)
(* ===================================================================== *)

Module HarnessFacts.
Import JS Assert Console Text Runner Harness.

(** *** Vocabulary *)

(** The records one console message adds to [results]. *)
Definition records_of (m : ConsoleMessage) : list ExtractedTestResult :=
  if startsWith "✅ " (text m) then
    [mkExtracted (trim (replace "✅ " "" (text m))) "passed" None]
  else if startsWith "❌ " (text m) then
    [mkExtracted (trim (replace "❌ " "" (text m))) "failed"
       (Some "Test assertion failed")]
  else [].

(** The console calls [logSummary] makes on a page. *)
Definition summary_calls (p : Page) : list call :=
  drop (length (console p)) (console (fst (logSummary p))).

(** The scenario of the framework's own description: ["a+b"], whose body
    completes, and ["bad"], whose body raises an error with a message. *)
Definition scenario_page : Page :=
  enqueueTest (mkTestCase "bad" (Rejected (ThrownOther "Expected 2, but got 1")))
    (enqueueTest (mkTestCase "a+b" Fulfilled) fresh_page).

(** The two lines of the summary-only scenario. *)
Definition summary_only : list ConsoleMessage :=
  [ mkConsoleMessage "info" "📊 Tests: 3";
    mkConsoleMessage "log" "✅ Passed: 1" ].

Lemma scan_results (st : state) (m : ConsoleMessage) :
  results (scan st m) = results st ++ records_of m /\
  passedTests (scan st m) <= passedTests st + length (records_of m).
Proof.
  unfold scan, records_of.
  repeat match goal with
         | |- context [if ?c then _ else _] => destruct c
         | |- context [match ?c with Some _ => _ | None => _ end] => destruct c
         end; cbn [results passedTests length]; rewrite ?app_nil_r;
    (split; [reflexivity|lia]).
Qed.

Lemma foldl_scan_results (ms : list ConsoleMessage) (st : state) :
  results (foldl scan st ms) = results st ++ flat_map records_of ms /\
  passedTests (foldl scan st ms)
  <= passedTests st + length (flat_map records_of ms).
Proof.
  revert st. induction ms as [|m ms IH]; intros st; cbn [foldl flat_map].
  - rewrite app_nil_r. split; [done|simpl; lia].
  - destruct (IH (scan st m)) as [IH1 IH2].
    destruct (scan_results st m) as [H1 H2].
    rewrite IH1, H1, <- app_assoc, length_app. split; [done|lia].
Qed.

(** Whenever the generic entries are made, the count of passed tests is 0:
    it counts the lines that start with the pass marker, and each of those
    has added a result. Every generic entry is then marked failed. *)
Lemma generic_entries_all_failed (ms : list ConsoleMessage) :
  length (results (foldl scan (mkState [] 0 0 []) ms)) = 0 ->
  Forall (fun r => status r = "failed") (extractTestResults ms).
Proof.
  intros Hlen. unfold extractTestResults, extract.
  destruct (foldl_scan_results ms (mkState [] 0 0 [])) as [Hres Hpassed].
  cbn [results passedTests] in Hres, Hpassed. rewrite Hres in Hlen.
  rewrite app_nil_l in Hlen. rewrite Hlen in Hpassed.
  assert (passedTests (foldl scan (mkState [] 0 0 []) ms) = 0) as Hzero by lia.
  set (st := foldl scan (mkState [] 0 0 []) ms) in *.
  destruct (bool_decide (length (results st) = 0) && bool_decide (0 < totalTests st)).
  - cbn [results]. rewrite Hres, app_nil_l.
    apply length_zero_iff_nil in Hlen. rewrite Hlen, app_nil_l, Hzero.
    unfold generic_entries. apply Forall_fmap, Forall_forall.
    intros i Hi%elem_of_seq. simpl. rewrite bool_decide_eq_false_2 by lia. done.
  - rewrite Hres, app_nil_l. apply length_zero_iff_nil in Hlen. by rewrite Hlen.
Qed.

Lemma extract_nonempty (ms : list ConsoleMessage) :
  0 < length (flat_map records_of ms) ->
  extractTestResults ms = flat_map records_of ms.
Proof.
  intros Hlen. unfold extractTestResults, extract.
  destruct (foldl_scan_results ms (mkState [] 0 0 [])) as [Hres _].
  cbn [results] in Hres. rewrite app_nil_l in Hres.
  rewrite Hres, bool_decide_eq_false_2 by lia. done.
Qed.

Lemma prefix_append (p x : string) : String.prefix p (p +:+ x) = true.
Proof.
  induction p as [|c p IH]; simpl; [by destruct x|].
  by destruct (ascii_dec c c).
Qed.

Section Captured.
Variable inspect : arg -> string.

Lemma records_of_pass_line (x : string) :
  length (records_of (capture inspect (info ("✅ " +:+ x)))) = 1.
Proof.
  unfold records_of, capture, startsWith.
  cbn [text meth args info fmap list_fmap arg_text String.concat].
  rewrite prefix_append.
  reflexivity.
Qed.

Lemma records_of_pass_log (x : string) :
  length (records_of (capture inspect (log ("✅ " +:+ x)))) = 1.
Proof.
  unfold records_of, capture, startsWith.
  cbn [text meth args log fmap list_fmap arg_text String.concat].
  rewrite prefix_append.
  reflexivity.
Qed.

Lemma records_of_fail_line (x : string) :
  length (records_of (capture inspect (Console.error ("❌ " +:+ x)))) = 1.
Proof.
  unfold records_of, capture, startsWith.
  cbn [text meth args Console.error fmap list_fmap arg_text String.concat].
  assert (String.prefix "✅ " ("❌ " +:+ x) = false) as ->
    by (vm_compute; reflexivity).
  rewrite prefix_append.
  reflexivity.
Qed.

(** Each result printed by the loop of [logSummary] starts with a marker
    line, which the extraction reads back as a record. *)
Lemma log_results_records (rs : list RunResult) :
  snd (log_results rs) = true ->
  length rs <= length (flat_map records_of (capture inspect <$> fst (log_results rs))).
Proof.
  induction rs as [|r rs IH]; [simpl; lia|]. cbn [log_results].
  destruct (log_results rs) as [cs ok]. cbn [fst snd] in IH.
  destruct (result_passed r).
  - cbn [fst snd]. intros ->. specialize (IH eq_refl).
    rewrite fmap_cons. cbn [flat_map]. rewrite length_app, records_of_pass_line.
    simpl. lia.
  - destruct (result_error r) as [[e stack|m|]|]; cbn [fst snd]; try done.
    + intros ->. specialize (IH eq_refl).
      rewrite fmap_cons, fmap_app. cbn [flat_map].
      rewrite length_app, flat_map_app, length_app, records_of_fail_line.
      simpl. lia.
    + intros ->. specialize (IH eq_refl).
      rewrite !fmap_cons. cbn [flat_map].
      rewrite !length_app, records_of_fail_line. simpl. lia.
Qed.

(** The calls of a summary that runs to its end: the header, the lines of
    the results, an empty line, the count of passed tests, and the rest. *)
Lemma summary_calls_complete (p : Page) :
  snd (log_results (testResults (runner p))) = true ->
  exists tail,
    summary_calls p
    = info (nl +:+ "📊 Tests: " +:+ of_nat (total (runner p)))
      :: fst (log_results (testResults (runner p)))
      ++ log nl :: log ("✅ Passed: " +:+ of_nat (passed (runner p))) :: tail.
Proof.
  unfold summary_calls, logSummary.
  destruct (log_results (testResults (runner p))) as [cs ok]. cbn [fst snd].
  intros ->. cbn [negb].
  destruct (bool_decide (0 < failed (runner p)));
    cbn [fst console emit alert set_testCompleted runner];
    rewrite <- !app_assoc, drop_app_length; eexists; reflexivity.
Qed.

(** A summary that runs to its end is read back as more records than the
    run has results: one for each result at least, and one for the line that
    counts the passed tests. *)
Lemma summary_extracts_too_many (p : Page) :
  snd (log_results (testResults (runner p))) = true ->
  length (testResults (runner p))
  < length (extractTestResults (capture inspect <$> summary_calls p)).
Proof.
  intros Hok. destruct (summary_calls_complete p Hok) as [tail ->].
  pose proof (log_results_records _ Hok) as Hrs.
  set (cs := fst (log_results (testResults (runner p)))) in *.
  assert (length (testResults (runner p))
          < length (flat_map records_of
                      (capture inspect <$>
                         info (nl +:+ "📊 Tests: " +:+ of_nat (total (runner p)))
                         :: cs ++ log nl
                            :: log ("✅ Passed: " +:+ of_nat (passed (runner p)))
                            :: tail))) as Hlt.
  { rewrite fmap_cons, fmap_app, !fmap_cons. cbn [flat_map].
    rewrite length_app, flat_map_app, length_app. cbn [flat_map].
    rewrite !length_app.
    change (log ("✅ Passed: " +:+ of_nat (passed (runner p))))
      with (log ("✅ " +:+ ("Passed: " +:+ of_nat (passed (runner p))))).
    rewrite records_of_pass_log. lia. }
  rewrite extract_nonempty; [exact Hlt|lia].
Qed.

End Captured.

(** The lines of a header and two results are read back as the two
    results, in order. *)
Theorem per_case_lines_extracted :
  extractTestResults
    [ mkConsoleMessage "info" "📊 Tests: 2";
      mkConsoleMessage "info" "✅ a+b";
      mkConsoleMessage "error" "❌ bad" ]
  = [ mkExtracted "a+b" "passed" None;
      mkExtracted "bad" "failed" (Some "Test assertion failed") ].
Proof. vm_compute. reflexivity. Qed.

(** C2. On the two lines ["📊 Tests: 3"] and ["✅ Passed: 1"] the function
    returns one record, not three: the second line starts with the pass
    marker, so it is taken for the result of a test named ["Passed: 1"]; the
    list of results is then not empty and no generic entry is made. The
    count read from the line is logged and not kept. *)
Theorem summary_only_gives_one_record :
  extractTestResults summary_only = [ mkExtracted "Passed: 1" "passed" None ] /\
  logged (extract summary_only) = [ "🔍 Browser reported 1 passed tests" ].
Proof. vm_compute. split; reflexivity. Qed.

(** C1. The lines of a completed run of the scenario, as captured whatever
    the rendering of inspected values: besides the record of each of the two
    test cases the extraction returns a passed record named ["Passed: 1"]
    and a failed record named ["Failed: 1"], made from the summary's own
    count lines, which start with the markers. *)
Theorem summary_lines_give_spurious_records (inspect : arg -> string) :
  snd (runPendingTests scenario_page) = Resolved (VBool false) /\
  extractTestResults (capture inspect <$> console (fst (runPendingTests scenario_page)))
  = [ mkExtracted "a+b" "passed" None;
      mkExtracted "bad" "failed" (Some "Test assertion failed");
      mkExtracted "Passed: 1" "passed" None;
      mkExtracted "Failed: 1" "failed" (Some "Test assertion failed") ].
Proof. vm_compute. split; reflexivity. Qed.

End HarnessFacts.

(* ===================================================================== *)
(** ** More about [diff]: what the differences say *)
(* ===================================================================== *)

Module DiffFacts.
Import JS Assert AssertFacts Assertions.

(** *** Vocabulary *)

(** The value found in [v] along the keys [q]. *)
Definition follow (h : heap) (v : value) (q : list string) : value :=
  foldl (get h) v q.

(** A difference seen from the other side. *)
Definition mirror (d : Difference) : Difference :=
  {| path := path d; actual := expected d; expected := actual d |}.

(** *** Strict equality is symmetric *)

Lemma SFeqb_sym (x y : spec_float) : SFeqb x y = SFeqb y x.
Proof.
  unfold SFeqb, SFcompare.
  destruct x as [sx|sx| |sx mx ex], y as [sy|sy| |sy my ey];
    try reflexivity; try (by destruct sx); try (by destruct sy);
    try (by destruct sx, sy).
  destruct sx, sy; try reflexivity.
  - rewrite (Z.compare_antisym ey ex).
    destruct (ey ?= ex)%Z; simpl; try reflexivity.
    rewrite <- (Pos.compare_cont_antisym mx my Eq
                : CompOpp (Pos.compare_cont Eq mx my) = Pos.compare_cont Eq my mx).
    by destruct (Pos.compare_cont Eq mx my).
  - rewrite (Z.compare_antisym ey ex).
    destruct (ey ?= ex)%Z; simpl; try reflexivity.
    rewrite <- (Pos.compare_cont_antisym mx my Eq
                : CompOpp (Pos.compare_cont Eq mx my) = Pos.compare_cont Eq my mx).
    by destruct (Pos.compare_cont Eq mx my).
Qed.

Lemma strict_equal_sym (a b : value) : strict_equal a b = strict_equal b a.
Proof.
  destruct a, b; simpl; try reflexivity;
    try (apply bool_decide_ext; split; congruence).
  by rewrite !FloatAxioms.eqb_spec, SFeqb_sym.
Qed.

(** *** The key set, up to order *)

Lemma Set_of_NoDup (seen keys : list string) : NoDup (Set_of seen keys).
Proof.
  revert seen. induction keys as [|k keys IH]; intros seen; simpl.
  - constructor.
  - case_bool_decide; [apply IH|]. constructor; [|apply IH].
    rewrite Set_of_elem. intros [_ Hnot]. apply Hnot, list_elem_of_here.
Qed.

Lemma Set_of_app_comm (ka kb : list string) :
  Set_of [] (ka ++ kb) ≡ₚ Set_of [] (kb ++ ka).
Proof.
  apply NoDup_Permutation; [apply Set_of_NoDup..|].
  intros k. rewrite !Set_of_nil_elem, !elem_of_app. tauto.
Qed.

Section Keys.
Variable h : heap.

Lemma diff_keys_Permutation rec a b path keys keys' ds :
  keys ≡ₚ keys' ->
  diff_keys rec h a b path keys = Some ds ->
  exists ds', diff_keys rec h a b path keys' = Some ds' /\ ds ≡ₚ ds'.
Proof.
  intros Hperm. revert ds.
  induction Hperm as [|k l l' _ IH|k1 k2 l|l l' l'' _ IH1 _ IH2]; intros ds; simpl.
  - intros [= <-]. by exists [].
  - destruct (rec (get h a k) (get h b k) (path ++ [k])) as [d1|]; [|done].
    destruct (diff_keys rec h a b path l) as [d2|]; [|done].
    intros [= <-]. destruct (IH d2 eq_refl) as (d2' & -> & Hd2).
    exists (d1 ++ d2'). split; [done|]. by rewrite Hd2.
  - destruct (rec (get h a k2) (get h b k2) (path ++ [k2])) as [d2|]; [|done].
    destruct (rec (get h a k1) (get h b k1) (path ++ [k1])) as [d1|]; [|done].
    destruct (diff_keys rec h a b path l) as [d3|]; [|done].
    intros [= <-]. exists (d1 ++ d2 ++ d3). split; [done|].
    rewrite !app_assoc. f_equiv. apply Permutation_app_comm.
  - intros Hds. destruct (IH1 ds Hds) as (ds1 & Hds1 & Hp1).
    destruct (IH2 ds1 Hds1) as (ds2 & Hds2 & Hp2).
    exists ds2. split; [done|]. by rewrite Hp1.
Qed.

Lemma diff_keys_mirror rec rec' a b path keys ds :
  (forall key x, rec (get h a key) (get h b key) (path ++ [key]) = Some x ->
     exists y, rec' (get h b key) (get h a key) (path ++ [key]) = Some y /\
               y ≡ₚ mirror <$> x) ->
  diff_keys rec h a b path keys = Some ds ->
  exists ds', diff_keys rec' h b a path keys = Some ds' /\ ds' ≡ₚ mirror <$> ds.
Proof.
  intros Hrec. revert ds. induction keys as [|k keys IH]; intros ds; simpl.
  - intros [= <-]. by exists [].
  - destruct (rec (get h a k) (get h b k) (path ++ [k])) as [d1|] eqn:E1; [|done].
    destruct (diff_keys rec h a b path keys) as [d2|]; [|done].
    intros [= <-]. destruct (Hrec k d1 E1) as (y & -> & Hy).
    destruct (IH d2 eq_refl) as (d2' & -> & Hd2).
    exists (y ++ d2'). split; [done|]. by rewrite fmap_app, Hy, Hd2.
Qed.

Lemma diff_keys_inv rec a b path keys ds d :
  diff_keys rec h a b path keys = Some ds ->
  d ∈ ds ->
  exists key dk,
    key ∈ keys /\
    rec (get h a key) (get h b key) (path ++ [key]) = Some dk /\ d ∈ dk.
Proof.
  revert ds. induction keys as [|k keys IH]; intros ds; simpl.
  - intros [= <-] Hd. by apply elem_of_nil in Hd.
  - destruct (rec (get h a k) (get h b k) (path ++ [k])) as [d1|] eqn:E1; [|done].
    destruct (diff_keys rec h a b path keys) as [d2|]; [|done].
    intros [= <-] [Hd|Hd]%elem_of_app.
    + exists k, d1. split; [apply list_elem_of_here|done].
    + destruct (IH d2 eq_refl Hd) as (key & dk & Hkey & Hrec & Hin).
      exists key, dk. split; [by apply list_elem_of_further|done].
Qed.

Lemma diff_keys_None rec a b path keys key :
  key ∈ keys ->
  rec (get h a key) (get h b key) (path ++ [key]) = None ->
  diff_keys rec h a b path keys = None.
Proof.
  induction keys as [|k keys IH]; simpl.
  - by intros ?%elem_of_nil.
  - intros [->|Hin]%elem_of_cons Hnone.
    + by rewrite Hnone.
    + destruct (rec (get h a k) (get h b k) (path ++ [k])); [|done].
      by rewrite (IH Hin Hnone).
Qed.

(** [diff(b, a)] yields the differences of [diff(a, b)] seen from the other
    side, up to the order in which the keys are visited. *)
Lemma diff_mirror (depth : nat) a b path ds :
  diff depth h a b path = Some ds ->
  exists ds', diff depth h b a path = Some ds' /\ ds' ≡ₚ mirror <$> ds.
Proof.
  revert a b path ds. induction depth as [|depth IH]; intros a b path ds; [done|].
  simpl. rewrite (strict_equal_sym b a), (orb_comm (negb (isObject b))).
  destruct (strict_equal a b); [intros [= <-]; by exists []|].
  destruct (negb (isObject a) || negb (isObject b)).
  { intros [= <-]. eexists. split; [reflexivity|done]. }
  intros Hds.
  destruct (diff_keys_mirror (diff depth h) (diff depth h) a b path _ ds
              (fun key x => IH _ _ _ x) Hds) as (ds1 & Hds1 & Hp1).
  destruct (diff_keys_Permutation (diff depth h) b a path _ _ ds1
              (Set_of_app_comm (Object_keys h a) (Object_keys h b)) Hds1)
    as (ds2 & Hds2 & Hp2).
  exists ds2. split; [done|]. by rewrite <- Hp2.
Qed.

End Keys.

(** The verdict of [assert.deepEqual] does not depend on the order of its
    arguments: it returns on [(a, b)] exactly when it returns on [(b, a)],
    and when it raises on [(a, b)] it raises on [(b, a)] with the same
    differences, actual and expected exchanged, up to their order. *)
Theorem deepEqual_mirror (depth : nat) (h : heap) (a b : value) :
  (deepEqual depth h a b = Some (Returns tt) <->
   deepEqual depth h b a = Some (Returns tt)) /\
  (forall ds,
     deepEqual depth h a b = Some (Throws (not_deeply_equal a b ds)) ->
     exists ds',
       deepEqual depth h b a = Some (Throws (not_deeply_equal b a ds')) /\
       ds' ≡ₚ mirror <$> ds).
Proof.
  assert (Hflip : forall x y ds,
    diff depth h x y [] = Some ds ->
    exists ds', diff depth h y x [] = Some ds' /\ ds' ≡ₚ mirror <$> ds)
    by (intros x y ds; apply diff_mirror).
  split; [split|].
  - unfold deepEqual. destruct (diff depth h a b []) as [ds|] eqn:E; [|done].
    destruct (Hflip _ _ _ E) as (ds' & -> & Hp).
    destruct ds; [|done]. intros _. apply Permutation_nil_r in Hp. by subst.
  - unfold deepEqual. destruct (diff depth h b a []) as [ds|] eqn:E; [|done].
    destruct (Hflip _ _ _ E) as (ds' & -> & Hp).
    destruct ds; [|done]. intros _. apply Permutation_nil_r in Hp. by subst.
  - intros ds. unfold deepEqual.
    destruct (diff depth h a b []) as [ds0|] eqn:E; [|done].
    destruct (Hflip _ _ _ E) as (ds' & -> & Hp).
    destruct ds0 as [|d0 ds0]; [done|]. simpl. intros [= <-].
    exists ds'. split; [|done].
    destruct ds' as [|d' ds']; [|done].
    apply Permutation_nil in Hp. done.
Qed.

Lemma deepEqual_mirror_witness :
  exists ds',
    deepEqual 3 scenario_heap (VObject 3) (VObject 1)
    = Some (Throws (not_deeply_equal (VObject 3) (VObject 1) ds')) /\
    ds' ≡ₚ mirror <$> [ {| path := ["b"; "c"]; actual := VNumber 2%float;
                           expected := VNumber 3%float |} ].
Proof.
  apply (proj2 (deepEqual_mirror 3 scenario_heap (VObject 1) (VObject 3))).
  vm_compute. reflexivity.
Defined.

(** Every difference [diff] yields is a mismatch found in the operands: its
    path extends the path [diff] was given by the keys followed, its two
    values are those found in [a] and in [b] along these keys, they are not
    strictly equal, and at least one of them is not an object. *)
Theorem diff_sound (depth : nat) (h : heap) (a b : value) (path : list string)
    (ds : list Difference) (d : Difference) :
  diff depth h a b path = Some ds ->
  d ∈ ds ->
  exists q,
    Assert.path d = path ++ q /\
    actual d = follow h a q /\
    expected d = follow h b q /\
    strict_equal (actual d) (expected d) = false /\
    (isObject (actual d) = false \/ isObject (expected d) = false).
Proof.
  revert a b path ds. induction depth as [|depth IH]; intros a b path ds; [done|].
  simpl. destruct (strict_equal a b) eqn:Heq.
  { intros [= <-] Hd. by apply elem_of_nil in Hd. }
  destruct (negb (isObject a) || negb (isObject b)) eqn:Hobj.
  { intros [= <-] ->%list_elem_of_singleton. exists []. simpl.
    rewrite app_nil_r. repeat split; try done.
    apply orb_true_iff in Hobj as [?%negb_true_iff|?%negb_true_iff]; auto. }
  intros Hds Hd.
  destruct (diff_keys_inv h _ _ _ _ _ _ _ Hds Hd) as (key & dk & _ & Hrec & Hin).
  destruct (IH _ _ _ _ Hrec Hin) as (q & Hpath & Ha & Hb & Hne & Hleaf).
  exists (key :: q). rewrite Hpath, <- app_assoc. done.
Qed.

Lemma diff_sound_witness :
  exists q,
    ["b"; "c"] = [] ++ q /\
    VNumber 2%float = follow scenario_heap (VObject 1) q /\
    VNumber 3%float = follow scenario_heap (VObject 3) q /\
    strict_equal (VNumber 2%float) (VNumber 3%float) = false /\
    (isObject (VNumber 2%float) = false \/ isObject (VNumber 3%float) = false).
Proof.
  apply (diff_sound 3 scenario_heap (VObject 1) (VObject 3) []
           [ {| path := ["b"; "c"]; actual := VNumber 2%float;
                expected := VNumber 3%float |} ]
           {| path := ["b"; "c"]; actual := VNumber 2%float;
              expected := VNumber 3%float |}).
  - vm_compute. reflexivity.
  - apply list_elem_of_here.
Defined.

Lemma assoc_Some_key (key : string) (ps : props) (v : value) :
  assoc key ps = Some v -> key ∈ ps.*1.
Proof.
  induction ps as [|[k x] ps IH]; simpl; [done|].
  case_bool_decide as Hk.
  - intros _. subst. apply list_elem_of_here.
  - intros Hv. apply list_elem_of_further. auto.
Qed.

(** The traversal has no guard against cycles: two distinct objects that
    each refer to themselves under the same key are never told apart or
    alike, [diff] does not come back at any depth and [assert.deepEqual] has
    no result. *)
Theorem diff_self_references_diverge (h : heap) (la lb : loc) (key : string)
    (depth : nat) (path : list string) :
  la <> lb ->
  assoc key (own_props h la) = Some (VObject la) ->
  assoc key (own_props h lb) = Some (VObject lb) ->
  diff depth h (VObject la) (VObject lb) path = None /\
  deepEqual depth h (VObject la) (VObject lb) = None.
Proof.
  intros Hne Ha Hb.
  assert (Hdiff : forall depth path,
            diff depth h (VObject la) (VObject lb) path = None).
  { clear depth path. induction depth as [|depth IH]; intros path; [done|].
    simpl. rewrite bool_decide_eq_false_2 by done. simpl.
    apply (diff_keys_None h _ _ _ _ _ key).
    - apply Set_of_nil_elem, elem_of_app. left.
      apply (assoc_Some_key _ _ _ Ha).
    - rewrite (get_own _ _ _ _ Ha), (get_own _ _ _ _ Hb). apply IH. }
  split; [apply Hdiff|]. unfold deepEqual. by rewrite Hdiff.
Qed.

Lemma diff_self_references_diverge_witness :
  diff 7 two_cycles_heap (VObject 1) (VObject 2) [] = None /\
  deepEqual 7 two_cycles_heap (VObject 1) (VObject 2) = None.
Proof.
  apply (diff_self_references_diverge two_cycles_heap 1 2 "self" 7 []).
  - discriminate.
  - reflexivity.
  - reflexivity.
Defined.

(** *** [assert.equal] against [assert.deepEqual] *)

(** Whatever [assert.equal] accepts, [assert.deepEqual] accepts, in every
    heap and without reading it; and when one of the operands is not an
    object the two assertions agree: [deepEqual] returns exactly when
    [equal] does. *)
Theorem equal_and_deepEqual (ToString : value -> string) (depth : nat)
    (h : heap) (a b : value) :
  (equal ToString a b = Returns tt -> deepEqual (S depth) h a b = Some (Returns tt)) /\
  (isObject a = false \/ isObject b = false ->
   (deepEqual (S depth) h a b = Some (Returns tt) <-> equal ToString a b = Returns tt)).
Proof.
  assert (Heq : equal ToString a b = Returns tt <-> strict_equal a b = true).
  { unfold equal. destruct (strict_equal a b); simpl; split; done. }
  assert (Hyes : strict_equal a b = true ->
                 deepEqual (S depth) h a b = Some (Returns tt)).
  { intros E. unfold deepEqual. by rewrite (diff_strict_equal depth h a b [] E). }
  split; [rewrite Heq; exact Hyes|].
  intros Hleaf. rewrite Heq. split; [|exact Hyes].
  destruct (strict_equal a b) eqn:E; [done|].
  unfold deepEqual. by rewrite (diff_leaf depth h a b [] E Hleaf).
Qed.

Lemma equal_and_deepEqual_witness :
  deepEqual 1 ∅ (VString "x") (VString "x") = Some (Returns tt) /\
  (deepEqual 1 ∅ (VNumber 1%float) (VString "1") = Some (Returns tt) <->
   equal (fun _ => "") (VNumber 1%float) (VString "1") = Returns tt).
Proof.
  split.
  - apply (proj1 (equal_and_deepEqual (fun _ => "") 0 ∅ (VString "x") (VString "x"))).
    reflexivity.
  - apply (proj2 (equal_and_deepEqual (fun _ => "") 0 ∅ (VNumber 1%float) (VString "1"))).
    left. reflexivity.
Defined.

End DiffFacts.

(* ===================================================================== *)
(** ** More about the runner: scheduling and bookkeeping *)
(* ===================================================================== *)

Module ScheduleFacts.
Import JS Assert Console Text Runner RunnerFacts.

(** *** Vocabulary *)

(** The counters agree with the list of results: [passed] and [failed] count
    its passed and its failed entries, and an entry holds an error exactly
    when it has not passed. *)
Definition consistent (r : TestRunner) : Prop :=
  passed r = length (filter (fun x => result_passed x = true) (testResults r)) /\
  failed r = length (filter (fun x => result_passed x = false) (testResults r)) /\
  passed r + failed r = length (testResults r) /\
  Forall (fun x => result_passed x = false <-> is_Some (result_error x))
         (testResults r).

(** Once the document is ready, a queue that is not empty has a run
    scheduled. *)
Definition run_scheduled (r : TestRunner) : Prop :=
  domContentLoaded r = true -> testQueue r <> [] -> autoRunScheduled r = true.

(** Whether a timer is the one of [scheduleAutoRun]. *)
Definition is_auto (t : timer) : bool :=
  match t with
  | AutoRunTimer => true
  | LoadTimer => false
  end.

(** The number of pending timers of [scheduleAutoRun]. *)
Definition auto_timers (p : Page) : nat :=
  length (filter (fun t => is_auto t = true) (timers p)).

(** The tests registered by the events, in order. *)
Definition registered (evs : list event) : list TestCase :=
  omap (fun ev => match ev with Register t => Some t | _ => None end) evs.

(** Whether an event calls [runPendingTests]. *)
Definition starts_run (ev : event) : bool :=
  match ev with
  | Invoke | Timeout _ => true
  | _ => false
  end.

(** The events of a page load whose scripts register [ts] before the
    document is ready: the registrations, [DOMContentLoaded], the timer of
    [scheduleAutoRun] firing, and the bodies settling one after the other. *)
Definition page_load (ts : list TestCase) : list event :=
  (Register <$> ts) ++ [DOMContentLoaded; Timeout 0]
  ++ replicate (length ts) (Settle 0).

(** A fresh page whose queue holds [q]. *)
Definition queued (q : list TestCase) : World :=
  {| page := with_runner (set_testQueue q) fresh_page; runs := [] |}.

(** The page at the moment the timer set at [DOMContentLoaded] fires, when
    the tests [ts] were registered before the event. *)
Definition loaded (ts : list TestCase) : Page :=
  set_timers []
    (with_runner (set_domContentLoaded true)
       (with_runner (set_testQueue ts) fresh_page)).


(** *** What the methods leave alone *)

Lemma logSummary_timers (p : Page) : timers (fst (logSummary p)) = timers p.
Proof.
  unfold logSummary. destruct (log_results (testResults (runner p))) as [cs ok].
  destruct ok; simpl; [|done]. by case_bool_decide.
Qed.

Lemma begin_timers (p : Page) :
  timers (fst (runPendingTests_begin p)) = timers p /\
  autoRunScheduled (runner (fst (runPendingTests_begin p)))
  = autoRunScheduled (runner p).
Proof.
  destruct (testQueue (runner p)) as [|t rest] eqn:E.
  - by rewrite (begin_empty _ E).
  - destruct (begin_nonempty _ t rest E) as (p' & Hb & Hr).
    rewrite Hb. cbn [fst]. rewrite Hr. split; [|done].
    unfold runPendingTests_begin in Hb. rewrite E in Hb. simpl in Hb.
    rewrite E in Hb. by injection Hb as <-.
Qed.

Lemma resume_timers (t : TestCase) (rest : list TestCase) (p : Page) :
  timers (fst (runPendingTests_resume t rest p)) = timers p /\
  autoRunScheduled (runner (fst (runPendingTests_resume t rest p)))
  = autoRunScheduled (runner p).
Proof.
  unfold runPendingTests_resume.
  assert (timers (record_outcome t p) = timers p /\
          autoRunScheduled (runner (record_outcome t p))
          = autoRunScheduled (runner p)) as [Ht Hf].
  { unfold record_outcome. cbn [timers runner with_runner]. by destruct (fn t). }
  destruct rest as [|next rest']; [|done].
  pose proof (logSummary_timers (record_outcome t p)) as Hlt.
  pose proof (logSummary_runner (record_outcome t p)) as Hlr.
  destruct (logSummary (record_outcome t p)) as [p2 s2].
  cbn [fst] in *. by rewrite Hlt, Hlr.
Qed.

(** *** The counters and the list of results *)

Lemma consistent_record (t : TestCase) (p : Page) :
  consistent (runner p) -> consistent (runner (record_outcome t p)).
Proof.
  intros (Hp & Hf & Hsum & Herr). unfold record_outcome, consistent.
  cbn [runner with_runner].
  destruct (fn t) as [|e]; cbn [passed failed testResults];
    rewrite !filter_app, !length_app, Forall_app, Forall_singleton.
  - rewrite (filter_cons_True (fun x => result_passed x = true)) by done.
    rewrite (filter_cons_False (fun x => result_passed x = false)) by done.
    rewrite !filter_nil. simpl.
    repeat split; try lia; try done; by intros [? ?].
  - rewrite (filter_cons_False (fun x => result_passed x = true)) by done.
    rewrite (filter_cons_True (fun x => result_passed x = false)) by done.
    rewrite !filter_nil. simpl.
    repeat split; try lia; try done; by eexists.
Qed.

Lemma consistent_invoke (w : World) :
  consistent (runner (page w)) -> consistent (runner (page (invoke w))).
Proof.
  intros Hc. unfold invoke.
  destruct (testQueue (runner (page w))) as [|t rest] eqn:E.
  - by rewrite (begin_empty _ E).
  - destruct (begin_nonempty _ t rest E) as (p' & -> & Hr).
    cbn [page]. rewrite Hr. unfold consistent. simpl. repeat split; constructor.
Qed.

Lemma consistent_step (w : World) (ev : event) :
  consistent (runner (page w)) -> consistent (runner (page (step w ev))).
Proof.
  intros Hc. destruct ev as [t| | |i| |r|ms]; cbn [step].
  - destruct (enqueueTest_runner t (page w)) as [b Hb].
    cbn [on_page page]. by rewrite Hb.
  - cbn [on_page page]. by rewrite scheduleAutoRun_runner.
  - done.
  - destruct (timers (page w) !! i) as [[]|]; [| |done];
      by apply consistent_invoke.
  - by apply consistent_invoke.
  - destruct (runs w !! r) as [[t rest|s]|]; [|done..].
    unfold runPendingTests_resume.
    pose proof (consistent_record t (page w) Hc) as Hrec.
    destruct rest as [|next rest']; [|done].
    pose proof (logSummary_runner (record_outcome t (page w))) as Hlr.
    destruct (logSummary (record_outcome t (page w))) as [p2 s2].
    cbn [page fst] in *. by rewrite Hlr.
  - done.
Qed.

(** In every page reached from a fresh one, whatever is registered, whenever
    runs begin and in whatever order bodies settle, even with several runs
    in flight: [passed] and [failed] count the passed and the failed entries
    of [testResults], together they count all of them, and an entry holds an
    error exactly when it has not passed. *)
Theorem counters_match_results (evs : list event) :
  consistent (runner (page (exec fresh_world evs))).
Proof.
  assert (Hgen : forall w, consistent (runner (page w)) ->
                           consistent (runner (page (exec w evs)))).
  { induction evs as [|ev evs IH]; intros w Hc; [done|].
    apply (IH (step w ev)). by apply consistent_step. }
  apply Hgen. unfold consistent. simpl. repeat split; constructor.
Qed.

(** *** One timer of [scheduleAutoRun] at a time *)

Lemma filter_delete_length (l : list timer) (i : nat) (t : timer) :
  l !! i = Some t ->
  length (filter (fun t => is_auto t = true) l)
  = (if is_auto t then 1 else 0)
    + length (filter (fun t => is_auto t = true) (delete i l)).
Proof.
  revert i. induction l as [|x l IH]; intros i; [done|].
  destruct i as [|i]; cbn [lookup list_lookup delete list_delete].
  - intros [= ->]. rewrite filter_cons. destruct (is_auto t); by case_decide.
  - intros Hi. rewrite !filter_cons. specialize (IH i Hi).
    destruct (is_auto t); case_decide; simpl in *; by rewrite IH.
Qed.

Lemma debounced_schedule (p : Page) :
  auto_timers p = (if autoRunScheduled (runner p) then 1 else 0) ->
  auto_timers (scheduleAutoRun p)
  = (if autoRunScheduled (runner (scheduleAutoRun p)) then 1 else 0).
Proof.
  unfold scheduleAutoRun, auto_timers.
  destruct (autoRunScheduled (runner p)) eqn:E; [by rewrite E|].
  cbn [timers setTimeout with_runner runner set_autoRunScheduled autoRunScheduled].
  rewrite filter_app, length_app. intros ->. reflexivity.
Qed.

Lemma debounced_step (w : World) (ev : event) :
  auto_timers (page w) = (if autoRunScheduled (runner (page w)) then 1 else 0) ->
  auto_timers (page (step w ev))
  = (if autoRunScheduled (runner (page (step w ev))) then 1 else 0).
Proof.
  intros Hinv. destruct ev as [t| | |i| |r|ms]; cbn [step].
  - cbn [on_page page]. unfold enqueueTest. cbv zeta.
    cbn [runner with_runner set_testQueue domContentLoaded].
    destruct (domContentLoaded (runner (page w))); [apply debounced_schedule|];
      exact Hinv.
  - cbn [on_page page]. apply debounced_schedule. exact Hinv.
  - cbn [on_page page]. unfold auto_timers in *.
    cbn [timers setTimeout runner]. rewrite filter_app, length_app, Hinv.
    simpl. lia.
  - destruct (timers (page w) !! i) as [t|] eqn:Hi; [|done].
    pose proof (filter_delete_length _ _ _ Hi) as Hdel.
    unfold auto_timers in *. rewrite Hdel in Hinv.
    destruct t; unfold invoke; cbn [on_page page].
    + match goal with |- context [runPendingTests_begin ?q] =>
        destruct (begin_timers q) as [Ht Hf];
        destruct (runPendingTests_begin q) as [p2 st] end.
      cbn [page fst] in *. rewrite Ht, Hf. simpl in *.
      destruct (autoRunScheduled (runner (page w))); lia.
    + match goal with |- context [runPendingTests_begin ?q] =>
        destruct (begin_timers q) as [Ht Hf];
        destruct (runPendingTests_begin q) as [p2 st] end.
      cbn [page fst] in *. rewrite Ht, Hf. simpl in *. lia.
  - unfold invoke. destruct (begin_timers (page w)) as [Ht Hf].
    destruct (runPendingTests_begin (page w)) as [p2 st].
    cbn [page fst] in *. unfold auto_timers in *. by rewrite Ht, Hf.
  - destruct (runs w !! r) as [[t rest|s]|]; [|done..].
    destruct (resume_timers t rest (page w)) as [Ht Hf].
    destruct (runPendingTests_resume t rest (page w)) as [p2 st].
    cbn [page fst] in *. unfold auto_timers in *. by rewrite Ht, Hf.
  - done.
Qed.

Lemma debounced_exec (evs : list event) (w : World) :
  auto_timers (page w) = (if autoRunScheduled (runner (page w)) then 1 else 0) ->
  auto_timers (page (exec w evs))
  = (if autoRunScheduled (runner (page (exec w evs))) then 1 else 0).
Proof.
  revert w. induction evs as [|ev evs IH]; intros w Hinv; [done|].
  apply (IH (step w ev)). by apply debounced_step.
Qed.

(** In every page reached from a fresh one, the timers of [scheduleAutoRun]
    that are pending number one when [autoRunScheduled] is set and none
    when it is not: registrations made while a timer is pending schedule no
    second one, and once it has fired the next registration schedules
    again. *)
Theorem one_auto_run_timer (evs : list event) :
  auto_timers (page (exec fresh_world evs))
  = (if autoRunScheduled (runner (page (exec fresh_world evs))) then 1 else 0).
Proof. by apply debounced_exec. Qed.

(** *** No test is left waiting *)

Lemma run_scheduled_step (w : World) (ev : event) :
  run_scheduled (runner (page w)) -> run_scheduled (runner (page (step w ev))).
Proof.
  unfold run_scheduled. intros Hinv.
  destruct ev as [t| | |i| |r|ms]; cbn [step].
  - cbn [on_page page]. unfold enqueueTest. cbv zeta.
    cbn [runner with_runner set_testQueue domContentLoaded].
    destruct (domContentLoaded (runner (page w))) eqn:Hd.
    + rewrite scheduleAutoRun_runner. done.
    + cbn [runner with_runner set_testQueue domContentLoaded]. by rewrite Hd.
  - cbn [on_page page]. rewrite scheduleAutoRun_runner. done.
  - exact Hinv.
  - destruct (timers (page w) !! i) as [[]|]; [| |exact Hinv];
      unfold invoke; cbn [on_page page];
      match goal with |- context [runPendingTests_begin ?q] =>
        pose proof (begin_queue q) as Hq;
        destruct (runPendingTests_begin q) as [p2 st] end;
      cbn [page fst] in *; by rewrite Hq.
  - unfold invoke. pose proof (begin_queue (page w)) as Hq.
    destruct (runPendingTests_begin (page w)) as [p2 st].
    cbn [page fst] in *. by rewrite Hq.
  - destruct (runs w !! r) as [[t rest|s]|]; [|done..].
    assert (runner (fst (runPendingTests_resume t rest (page w)))
            = runner (record_outcome t (page w))) as Hr.
    { unfold runPendingTests_resume. destruct rest as [|next rest']; [|done].
      pose proof (logSummary_runner (record_outcome t (page w))) as Hlr.
      by destruct (logSummary (record_outcome t (page w))). }
    destruct (runPendingTests_resume t rest (page w)) as [p2 st].
    cbn [page fst] in *. rewrite Hr. unfold record_outcome.
    cbn [runner with_runner]. by destruct (fn t).
  - exact Hinv.
Qed.

Lemma run_scheduled_exec (evs : list event) (w : World) :
  run_scheduled (runner (page w)) -> run_scheduled (runner (page (exec w evs))).
Proof.
  revert w. induction evs as [|ev evs IH]; intros w Hinv; [done|].
  apply (IH (step w ev)). by apply run_scheduled_step.
Qed.

(** In every page reached from a fresh one: once the document is ready, a
    test that waits in the queue has the timer of [scheduleAutoRun] pending,
    and exactly one; no registration is left without a run to come. *)
Theorem queued_tests_have_a_timer (evs : list event) :
  domContentLoaded (runner (page (exec fresh_world evs))) = true ->
  testQueue (runner (page (exec fresh_world evs))) <> [] ->
  auto_timers (page (exec fresh_world evs)) = 1.
Proof.
  intros Hd Hq.
  rewrite (debounced_exec evs fresh_world eq_refl).
  rewrite (run_scheduled_exec evs fresh_world); [done| |done|done].
  unfold run_scheduled. done.
Qed.

Lemma queued_tests_have_a_timer_witness :
  auto_timers (page (exec fresh_world [DOMContentLoaded; Timeout 0; Register tA])) = 1.
Proof.
  apply (queued_tests_have_a_timer [DOMContentLoaded; Timeout 0; Register tA]).
  - reflexivity.
  - discriminate.
Defined.

(** *** Registrations while a run is in flight *)

Lemma queue_step (w : World) (ev : event) :
  starts_run ev = false ->
  testQueue (runner (page (step w ev)))
  = testQueue (runner (page w)) ++ registered [ev] /\
  length (runs (step w ev)) = length (runs w).
Proof.
  intros Hev. destruct ev as [t| | |i| |r|ms]; try discriminate Hev; cbn [step].
  - destruct (enqueueTest_runner t (page w)) as [b Hb].
    cbn [on_page page runs]. by rewrite Hb.
  - cbn [on_page page runs]. rewrite scheduleAutoRun_runner. simpl.
    by rewrite app_nil_r.
  - simpl. by rewrite app_nil_r.
  - unfold registered. cbn [omap list_omap]. rewrite app_nil_r.
    destruct (runs w !! r) as [[t rest|s]|]; [|done..].
    unfold runPendingTests_resume.
    assert (testQueue (runner (record_outcome t (page w)))
            = testQueue (runner (page w))) as Hq.
    { unfold record_outcome. cbn [runner with_runner]. by destruct (fn t). }
    destruct rest as [|next rest'].
    + pose proof (logSummary_runner (record_outcome t (page w))) as Hlr.
      destruct (logSummary (record_outcome t (page w))) as [p2 s2].
      cbn [page runs fst] in *. by rewrite Hlr, Hq, length_insert.
    + cbn [page runs]. by rewrite Hq, length_insert.
  - simpl. by rewrite app_nil_r.
Qed.

Lemma queue_exec (evs : list event) (w : World) :
  forallb (fun ev => negb (starts_run ev)) evs = true ->
  testQueue (runner (page (exec w evs)))
  = testQueue (runner (page w)) ++ registered evs /\
  length (runs (exec w evs)) = length (runs w).
Proof.
  revert w. induction evs as [|ev evs IH]; intros w Hevs.
  - simpl. by rewrite app_nil_r.
  - simpl in Hevs. apply andb_true_iff in Hevs as [Hev%negb_true_iff Hevs].
    destruct (queue_step w ev Hev) as [Hq Hl].
    destruct (IH (step w ev) Hevs) as [Hq' Hl'].
    change (exec w (ev :: evs)) with (exec (step w ev) evs).
    rewrite Hq', Hq, Hl', Hl, <- app_assoc. split; [|done].
    f_equal. unfold registered. by destruct ev.
Qed.

(** Tests registered after a run has begun do not join it: as long as
    [runPendingTests] is not called again they wait in the queue, in the
    order of their registration, whatever the run in flight does in the
    meantime; the next call takes exactly them, in that order, and leaves
    the queue empty. *)
Theorem registrations_wait_for_next_run (w : World) (evs : list event)
    (t : TestCase) (rest : list TestCase) :
  forallb (fun ev => negb (starts_run ev)) evs = true ->
  registered evs = t :: rest ->
  testQueue (runner (page (exec (invoke w) evs))) = t :: rest /\
  runs (invoke (exec (invoke w) evs))
  = runs (exec (invoke w) evs) ++ [Awaiting t rest] /\
  length (runs (exec (invoke w) evs)) = S (length (runs w)) /\
  testQueue (runner (page (invoke (exec (invoke w) evs)))) = [].
Proof.
  intros Hevs Hreg.
  destruct (queue_exec evs (invoke w) Hevs) as [Hq Hl].
  assert (testQueue (runner (page (invoke w))) = []) as Hempty.
  { unfold invoke. pose proof (begin_queue (page w)) as Hb.
    by destruct (runPendingTests_begin (page w)). }
  rewrite Hempty, app_nil_l, Hreg in Hq.
  split; [exact Hq|].
  destruct (begin_nonempty _ t rest Hq) as (p' & Hb & Hr).
  assert (length (runs (invoke w)) = S (length (runs w))) as Hlen.
  { unfold invoke. destruct (runPendingTests_begin (page w)).
    cbn [runs]. rewrite length_app. simpl. lia. }
  rewrite Hl, Hlen. clear Hl Hq. revert Hb Hr.
  generalize (exec (invoke w) evs). intros w' Hb Hr.
  unfold invoke. rewrite Hb. cbn [runs page]. by rewrite Hr.
Qed.

Lemma registrations_wait_for_next_run_witness :
  testQueue (runner (page (exec (invoke two_registered)
                             [Settle 0; Register tB; Tick 3; Register tA])))
  = [tB; tA] /\
  runs (invoke (exec (invoke two_registered)
                  [Settle 0; Register tB; Tick 3; Register tA]))
  = runs (exec (invoke two_registered)
            [Settle 0; Register tB; Tick 3; Register tA])
    ++ [Awaiting tB [tA]] /\
  length (runs (exec (invoke two_registered)
                  [Settle 0; Register tB; Tick 3; Register tA]))
  = S (length (runs two_registered)) /\
  testQueue (runner (page (invoke (exec (invoke two_registered)
                             [Settle 0; Register tB; Tick 3; Register tA])))) = [].
Proof.
  apply (registrations_wait_for_next_run two_registered
           [Settle 0; Register tB; Tick 3; Register tA] tB [tA]);
    reflexivity.
Defined.

(** *** A page load *)

Lemma exec_app (w : World) (evs evs' : list event) :
  exec w (evs ++ evs') = exec (exec w evs) evs'.
Proof. apply foldl_app. Qed.

Lemma exec_registrations (ts q : list TestCase) :
  exec (queued q) (Register <$> ts) = queued (q ++ ts).
Proof.
  revert q. induction ts as [|t ts IH]; intros q.
  - by rewrite app_nil_r.
  - rewrite fmap_cons.
    change (exec (queued q) (Register t :: (Register <$> ts)))
      with (exec (queued (q ++ [t])) (Register <$> ts)).
    by rewrite IH, <- app_assoc.
Qed.

Lemma run_tests_frame (ts : list TestCase) (p : Page) :
  total (runner (run_tests ts p)) = total (runner p) /\
  testQueue (runner (run_tests ts p)) = testQueue (runner p) /\
  timers (run_tests ts p) = timers p /\
  alerts (run_tests ts p) = alerts p /\
  testCompleted (run_tests ts p) = testCompleted p.
Proof.
  revert p. induction ts as [|t ts IH]; intros p; [done|].
  simpl. destruct (IH (record_outcome t p)) as (-> & -> & -> & -> & ->).
  unfold record_outcome. cbn [runner with_runner timers alerts testCompleted].
  by destruct (fn t).
Qed.

(** A page load comes to one uninterrupted call of [runPendingTests]. *)
Lemma page_load_exec (ts : list TestCase) :
  exec fresh_world (page_load ts)
  = {| page := fst (runPendingTests (loaded ts));
       runs := [Done (snd (runPendingTests (loaded ts)))] |}.
Proof.
  unfold page_load. rewrite exec_app.
  change fresh_world with (queued []). rewrite exec_registrations, app_nil_l.
  set (ready := {| page := loaded ts; runs := [] |}).
  change (exec (queued ts)
            ([DOMContentLoaded; Timeout 0] ++ replicate (length ts) (Settle 0)))
    with (exec (invoke ready)
            (replicate (length (testQueue (runner (page ready))))
               (Settle (length (runs ready))))).
  by rewrite run_uninterrupted.
Qed.

(** The tests a page registers before [DOMContentLoaded] are run by the one
    run the event schedules: once the timer has fired and the bodies have
    settled, [testResults] holds the result of each registered test, in
    registration order, [passed] and [failed] count the bodies that
    completed and that raised, [total] is their number, the run is over,
    the queue is empty and no timer is pending. *)
Theorem page_load_runs_registered_tests (ts : list TestCase) :
  testResults (runner (page (exec fresh_world (page_load ts)))) = result_of <$> ts /\
  passed (runner (page (exec fresh_world (page_load ts))))
  = length (filter (fun t => completes t = true) ts) /\
  failed (runner (page (exec fresh_world (page_load ts))))
  = length (filter (fun t => raises t = true) ts) /\
  total (runner (page (exec fresh_world (page_load ts)))) = length ts /\
  testQueue (runner (page (exec fresh_world (page_load ts)))) = [] /\
  timers (page (exec fresh_world (page_load ts))) = [] /\
  exists s, runs (exec fresh_world (page_load ts)) = [Done s].
Proof.
  rewrite page_load_exec. cbn [page runs].
  destruct ts as [|t rest].
  { repeat split; try reflexivity. by eexists. }
  rewrite (runPendingTests_nonempty (loaded (t :: rest)) t rest eq_refl).
  destruct (run_tests_runner (t :: rest) (prepared (S (length rest)) (loaded (t :: rest))))
    as (R1 & R2 & R3).
  destruct (run_tests_frame (t :: rest) (prepared (S (length rest)) (loaded (t :: rest))))
    as (R4 & R5 & R6 & _).
  rewrite logSummary_runner, logSummary_timers, R1, R2, R3, R4, R5, R6.
  repeat split; try reflexivity. by eexists.
Qed.

(** *** The end of a run *)





End ScheduleFacts.

(* ===================================================================== *)
(** ** What the harness makes of a run *)
(* ===================================================================== *)

Module ReportFacts.
Import JS Assert Console Text Runner Harness RunnerFacts HarnessFacts ScheduleFacts.

(** *** Vocabulary *)

(** Whether a line starts with one of the two markers. *)
Definition marked (s : string) : bool :=
  startsWith "✅ " s || startsWith "❌ " s.




(** The generic entries of the fallback, as they come out. *)
Definition failed_entries (n : nat) : list ExtractedTestResult :=
  (fun i => mkExtracted ("Browser Test " +:+ of_nat i) "failed" None) <$> seq 1 n.


(** *** The console of a run *)




(** *** Reading lines back *)

Lemma slice_append (p x : string) : slice (String.length p) (p +:+ x) = x.
Proof. induction p as [|c p IH]; [by destruct x|exact IH]. Qed.


(** *** Counts, printed and read back *)





Lemma to_uint_nonnil (n : nat) : Nat.to_uint n <> Decimal.Nil.
Proof.
  intros H. pose proof (DecimalNat.Unsigned.to_of (Nat.to_uint n)) as E.
  rewrite DecimalNat.Unsigned.of_to, H in E. discriminate E.
Qed.






Lemma parseInt_uint (u : Decimal.uint) (acc : nat) :
  foldl (fun n c => 10 * n + (nat_of_ascii c - 48)) acc
    (list_ascii_of_string (DecimalString.NilEmpty.string_of_uint u))
  = Nat.of_uint_acc u acc.
Proof.
  revert acc. induction u as [|u IH|u IH|u IH|u IH|u IH|u IH|u IH|u IH|u IH|u IH];
    intros acc; [done|..];
    cbn [DecimalString.NilEmpty.string_of_uint list_ascii_of_string foldl
         Nat.of_uint_acc];
    rewrite IH, Nat.tail_mul_spec; f_equal;
    match goal with
    | |- context [nat_of_ascii ?c - 48] =>
        let v := eval vm_compute in (nat_of_ascii c - 48) in
        change (nat_of_ascii c - 48) with v
    end; lia.
Qed.

(** [parseInt] reads a printed count back as the count. *)
Lemma parseInt_of_nat (n : nat) : parseInt (of_nat n) = n.
Proof.
  unfold parseInt, of_nat. rewrite parseInt_uint.
  apply DecimalNat.Unsigned.of_to.
Qed.

Lemma digits_uint (u : Decimal.uint) :
  digits (DecimalString.NilEmpty.string_of_uint u)
  = DecimalString.NilEmpty.string_of_uint u.
Proof.
  induction u as [|u IH|u IH|u IH|u IH|u IH|u IH|u IH|u IH|u IH|u IH];
    [done|..]; cbn [DecimalString.NilEmpty.string_of_uint digits];
    rewrite IH; reflexivity.
Qed.

Lemma of_nat_nonempty (n : nat) : of_nat n <> "".
Proof.
  unfold of_nat. pose proof (to_uint_nonnil n) as Hn.
  by destruct (Nat.to_uint n).
Qed.

Lemma match_digits_here (c : ascii) (p : string) (n : nat) :
  match_digits (String c p) (String c p +:+ of_nat n) = Some (of_nat n).
Proof.
  change (String c p +:+ of_nat n) with (String c (p +:+ of_nat n)).
  cbn [match_digits]. change (String c (p +:+ of_nat n)) with (String c p +:+ of_nat n).
  rewrite prefix_append, slice_append.
  unfold of_nat at 1. rewrite digits_uint. fold (of_nat n).
  pose proof (of_nat_nonempty n). by destruct (of_nat n).
Qed.

(** No printed count holds a text that starts with the first byte of the
    markers. *)
Lemma includes_uint (p : string) (u : Decimal.uint) :
  includes (String "226" p) (DecimalString.NilEmpty.string_of_uint u) = false.
Proof.
  induction u as [|u IH|u IH|u IH|u IH|u IH|u IH|u IH|u IH|u IH|u IH];
    [done|..]; cbn [DecimalString.NilEmpty.string_of_uint includes];
    rewrite IH; reflexivity.
Qed.

Section Captured.
Variable inspect : arg -> string.

(** The header [logSummary] prints for [n] tests is read back as the count
    [n], and as nothing else. *)
Lemma scan_header (st : state) (n : nat) :
  scan st (capture inspect (info (nl +:+ "📊 Tests: " +:+ of_nat n)))
  = mkState (results st) n (passedTests st) (logged st).
Proof.
  unfold scan, capture.
  cbn [text meth args info fmap list_fmap arg_text String.concat].
  assert (includes "📊 Tests:" (nl +:+ "📊 Tests: " +:+ of_nat n) = true) as ->
    by (by vm_compute).
  assert (match_digits "📊 Tests: " (nl +:+ "📊 Tests: " +:+ of_nat n)
          = Some (of_nat n)) as ->.
  { change (nl +:+ "📊 Tests: " +:+ of_nat n)
      with (String "010" ("📊 Tests: " +:+ of_nat n)).
    cbn [match_digits String.prefix]. 
    destruct (ascii_dec _ _) as [Heq|_]; [discriminate Heq|].
    apply match_digits_here. }
  rewrite parseInt_of_nat.
  assert (startsWith "✅ " (nl +:+ "📊 Tests: " +:+ of_nat n) = false) as ->
    by (by vm_compute).
  assert (startsWith "❌ " (nl +:+ "📊 Tests: " +:+ of_nat n) = false) as ->
    by (by vm_compute).
  assert (forall p, includes (String "226" p) (nl +:+ "📊 Tests: " +:+ of_nat n) = false)
    as Hinc.
  { intros p0. unfold of_nat.
    change (nl +:+ "📊 Tests: " +:+ ?x) with (nl +:+ ("📊 Tests: " +:+ x)).
    cbn [nl String.append includes String.prefix].
    repeat (destruct (ascii_dec _ _) as [Heq|_]; [discriminate Heq|]).
    cbn [orb]. apply includes_uint. }
  change "✅ Passed:" with (String "226" (slice 1 "✅ Passed:")).
  change "✅ All tests passed" with (String "226" (slice 1 "✅ All tests passed")).
  by rewrite !Hinc.
Qed.













End Captured.

(** *** The verdict *)







(** *** The fallback *)

Lemma scan_unmarked (st : state) (m : ConsoleMessage) :
  marked (text m) = false ->
  includes "📊 Tests:" (text m) = false ->
  results (scan st m) = results st /\
  totalTests (scan st m) = totalTests st /\
  passedTests (scan st m) = passedTests st.
Proof.
  unfold marked, scan. intros [-> ->]%orb_false_iff ->.
  repeat match goal with
         | |- context [if ?c then _ else _] => destruct c
         | |- context [match ?c with Some _ => _ | None => _ end] => destruct c
         end; done.
Qed.

Lemma foldl_scan_unmarked (ms : list ConsoleMessage) (st : state) :
  Forall (fun m => marked (text m) = false /\
                   includes "📊 Tests:" (text m) = false) ms ->
  results (foldl scan st ms) = results st /\
  totalTests (foldl scan st ms) = totalTests st /\
  passedTests (foldl scan st ms) = passedTests st.
Proof.
  intros Hms. revert st. induction Hms as [|m ms [Hm Hh] _ IH]; intros st; [done|].
  cbn [foldl]. destruct (IH (scan st m)) as (-> & -> & ->).
  by apply scan_unmarked.
Qed.

(** When the console holds the header of a summary of [n] tests and
    otherwise no line that starts with a marker, the harness makes [n]
    generic entries, named ["Browser Test 1"] to ["Browser Test n"], and
    marks every one of them failed. *)
Theorem fallback_entries_all_failed (inspect : arg -> string) (n : nat)
    (ms : list ConsoleMessage) :
  Forall (fun m => marked (text m) = false /\
                   includes "📊 Tests:" (text m) = false) ms ->
  extractTestResults
    (capture inspect (info (nl +:+ "📊 Tests: " +:+ of_nat n)) :: ms)
  = failed_entries n.
Proof.
  intros Hms. unfold extractTestResults, extract. cbn [foldl].
  rewrite scan_header. cbn [results passedTests logged].
  destruct (foldl_scan_unmarked ms (mkState [] n 0 []) Hms) as (Hr & Ht & Hp).
  cbn [results totalTests passedTests] in Hr, Ht, Hp.
  destruct (foldl scan (mkState [] n 0 []) ms) as [rs total passed lg].
  cbn [results totalTests passedTests] in *. subst rs total passed.
  cbn [length]. rewrite bool_decide_eq_true_2 by done. cbn [andb].
  case_bool_decide as Hn; cbn [results].
  - rewrite app_nil_l. unfold generic_entries, failed_entries.
    apply list_fmap_ext. intros k i Hi%lookup_seq.
    by rewrite bool_decide_eq_false_2 by lia.
  - by replace n with 0 by lia.
Qed.

Lemma fallback_entries_all_failed_witness :
  extractTestResults
    (capture (fun _ => "{}") (info (nl +:+ "📊 Tests: " +:+ of_nat 3))
     :: [mkConsoleMessage "log" "All done"])
  = failed_entries 3.
Proof.
  apply (fallback_entries_all_failed (fun _ => "{}") 3
           [mkConsoleMessage "log" "All done"]).
  repeat constructor.
Defined.

End ReportFacts.

(* ===================================================================== *)
(** ** The sandbox and the fixtures of UI tests *)
(* ===================================================================== *)

Module UIFacts.
Import JS Assert Sandbox SandboxFacts UI.

(** *** Vocabulary *)

(** [x] is inside [ancestor]: a child of it, or a child of a node inside
    it. *)
Inductive inside (d : Document) (ancestor : nat) : nat -> Prop :=
| inside_child (x : nat) :
    parentNode d !! x = Some (Node ancestor) -> inside d ancestor x
| inside_descendant (x y : nat) :
    parentNode d !! x = Some (Node y) -> inside d ancestor y -> inside d ancestor x.

(** What [test.ui]'s function passes on of the result of [testFn]. *)
Definition awaited (r : completion value value) : completion value error :=
  match r with
  | Returns _ => Returns VUndefined
  | Throws e => Throws (Raised e)
  end.

(** The document as [testFn] finds it when the template holds [nodes]
    top-level nodes: the sandbox appended to [document.body], the copy of
    the template's content appended to the sandbox. *)
Definition fixture_document (new_Error : string -> value) (d : Document)
    (sandbox nodes : nat) : Document :=
  appendFragment sandbox (nextId (with_sandbox_attached d sandbox))
    (fst (cloneTemplateContent new_Error (TemplateElement nodes)
            (with_sandbox_attached d sandbox))).

(** *** [withSandbox] *)

Lemma withSandbox_eq (fn : callback) (d : Document) (sandbox : nat) :
  snd (make_sandbox d) = Some sandbox ->
  withSandbox fn d
  = match removeChild
            (Node (body (fst (fn sandbox (with_sandbox_attached d sandbox)))))
            sandbox (fst (fn sandbox (with_sandbox_attached d sandbox))) with
    | Some d' => (d', passed_on (snd (fn sandbox (with_sandbox_attached d sandbox))))
    | None => (fst (fn sandbox (with_sandbox_attached d sandbox)), Throws NotFoundError)
    end.
Proof.
  unfold withSandbox, with_sandbox_attached.
  destruct (make_sandbox d) as [d0 o]. cbn [fst snd]. intros ->.
  destruct (fn sandbox (appendChild (Node (body d0)) sandbox d0)) as [d2 r].
  cbn [fst snd]. by destruct (removeChild (Node (body d2)) sandbox d2).
Qed.

Lemma removeChild_child (parent child : nat) (d : Document) :
  parentNode d !! child = Some (Node parent) ->
  removeChild (Node parent) child d
  = Some (set_parentNode (delete child (parentNode d)) d).
Proof. intros H. unfold removeChild. by rewrite H, bool_decide_eq_true_2. Qed.

Lemma removeChild_elsewhere (parent child : nat) (d : Document) (p : node) :
  parentNode d !! child = Some p -> p <> Node parent ->
  removeChild (Node parent) child d = None.
Proof.
  intros H Hp. unfold removeChild. rewrite H. destruct p as [|x]; [done|].
  rewrite bool_decide_eq_false_2; [done|congruence].
Qed.

(** Nothing inside a node without a parent is attached. *)
Lemma inside_detached (d : Document) (ancestor x : nat) :
  parentNode d !! ancestor = None -> inside d ancestor x -> ~ attached d (Node x).
Proof.
  intros Hnone. induction 1 as [x Hx|x y Hx _ IH]; intros Hatt.
  - inversion Hatt as [|? p Hp Hup]; subst.
    rewrite Hx in Hp. injection Hp as <-.
    by apply (not_attached_orphan d ancestor).
  - inversion Hatt as [|? p Hp Hup]; subst.
    rewrite Hx in Hp. injection Hp as <-. by apply IH.
Qed.

Lemma inside_delete (d : Document) (ancestor x : nat) :
  inside d ancestor x ->
  x = ancestor \/
  inside (set_parentNode (delete ancestor (parentNode d)) d) ancestor x.
Proof.
  induction 1 as [x Hx|x y Hx _ IH].
  - destruct (decide (x = ancestor)) as [->|Hne]; [by left|right].
    apply inside_child. cbn [parentNode set_parentNode].
    by rewrite lookup_delete_ne.
  - destruct (decide (x = ancestor)) as [->|Hne]; [by left|right].
    destruct IH as [->|IH].
    + apply inside_child. cbn [parentNode set_parentNode].
      by rewrite lookup_delete_ne.
    + apply (inside_descendant _ _ x y); [|done].
      cbn [parentNode set_parentNode]. by rewrite lookup_delete_ne.
Qed.

(** What a callback has put inside the sandbox leaves the document with it:
    for every callback that leaves the sandbox a child of [document.body],
    no node inside the sandbox when the callback ends is attached to the
    document once [withSandbox] has returned or raised. *)
Theorem withSandbox_removes_contents (fn : callback) (d : Document)
    (sandbox x : nat) :
  snd (make_sandbox d) = Some sandbox ->
  parentNode (fst (fn sandbox (with_sandbox_attached d sandbox))) !! sandbox
  = Some (Node (body (fst (fn sandbox (with_sandbox_attached d sandbox))))) ->
  inside (fst (fn sandbox (with_sandbox_attached d sandbox))) sandbox x ->
  ~ attached (fst (withSandbox fn d)) (Node x).
Proof.
  intros Hsb Hleft Hin. rewrite (withSandbox_eq fn d sandbox Hsb).
  rewrite (removeChild_child _ _ _ Hleft). cbn [fst].
  destruct (inside_delete _ _ _ Hin) as [->|Hin'].
  - apply not_attached_orphan. cbn [parentNode set_parentNode].
    apply lookup_delete_eq.
  - apply (inside_detached _ sandbox); [|done].
    cbn [parentNode set_parentNode]. apply lookup_delete_eq.
Qed.

Lemma withSandbox_removes_contents_witness :
  ~ attached (fst (withSandbox fill_and_raise small_document)) (Node 4).
Proof.
  apply (withSandbox_removes_contents fill_and_raise small_document 3 4).
  - reflexivity.
  - vm_compute. reflexivity.
  - apply inside_child. vm_compute. reflexivity.
Defined.

(** A callback that moves the sandbox under another node defeats the
    clean-up: [withSandbox] raises the [NotFoundError] of [removeChild]
    whatever the callback returned or raised, the document stays as the
    callback left it, and the sandbox is attached wherever its new parent
    is. *)
Theorem withSandbox_moved_sandbox_leaks (fn : callback) (d : Document)
    (sandbox : nat) (p : node) :
  snd (make_sandbox d) = Some sandbox ->
  parentNode (fst (fn sandbox (with_sandbox_attached d sandbox))) !! sandbox
  = Some p ->
  p <> Node (body (fst (fn sandbox (with_sandbox_attached d sandbox)))) ->
  withSandbox fn d
  = (fst (fn sandbox (with_sandbox_attached d sandbox)), Throws NotFoundError) /\
  (attached (fst (fn sandbox (with_sandbox_attached d sandbox))) p ->
   attached (fst (withSandbox fn d)) (Node sandbox)).
Proof.
  intros Hsb Hp Hne. rewrite (withSandbox_eq fn d sandbox Hsb).
  rewrite (removeChild_elsewhere _ _ _ p Hp Hne). split; [done|].
  cbn [fst]. intros Hatt. by apply (attached_child _ sandbox p).
Qed.

Lemma withSandbox_moved_sandbox_leaks_witness :
  withSandbox (adopt 0) small_document
  = (fst (adopt 0 3 (with_sandbox_attached small_document 3)), Throws NotFoundError) /\
  attached (fst (withSandbox (adopt 0) small_document)) (Node 3).
Proof.
  destruct (withSandbox_moved_sandbox_leaks (adopt 0) small_document 3 (Node 0))
    as [Hres Hatt].
  - reflexivity.
  - vm_compute. reflexivity.
  - discriminate.
  - split; [exact Hres|]. apply Hatt.
    apply (attached_child _ 0 TheDocument); [vm_compute; reflexivity|].
    apply attached_document.
Defined.

(** When the page has a sandbox template that holds no sandbox section,
    [withSandbox] raises the [TypeError] of [appendChild(null)]: the callback
    is not called, whichever it is, and the document's tree is as it was. *)
Theorem withSandbox_without_section (fn : callback) (d : Document) :
  sandboxTemplate d = Some false ->
  snd (withSandbox fn d) = Throws TypeError /\
  parentNode (fst (withSandbox fn d)) = parentNode d /\
  (forall fn' : callback, withSandbox fn' d = withSandbox fn d).
Proof.
  intros Ht. unfold withSandbox, make_sandbox, clone_sandbox_section.
  rewrite Ht. done.
Qed.

Lemma withSandbox_without_section_witness :
  snd (withSandbox fill_and_raise
         (mkDocument (parentNode small_document) 1 (Some false) ∅ 3))
  = Throws TypeError /\
  parentNode (fst (withSandbox fill_and_raise
                     (mkDocument (parentNode small_document) 1 (Some false) ∅ 3)))
  = parentNode small_document.
Proof.
  destruct (withSandbox_without_section fill_and_raise
              (mkDocument (parentNode small_document) 1 (Some false) ∅ 3))
    as (Hres & Htree & _); [reflexivity|].
  split; [exact Hres|exact Htree].
Defined.

(** [withSandbox] cleans up after itself: in a document whose new nodes are
    new (no node numbered from [nextId] on has a parent yet), after a
    callback that leaves the tree as it found it the tree is again as it
    was before the call, and [withSandbox] ends as the callback did. *)
Theorem withSandbox_restores_tree (fn : callback) (d : Document) (sandbox : nat) :
  (forall i, nextId d <= i -> parentNode d !! i = None) ->
  snd (make_sandbox d) = Some sandbox ->
  parentNode (fst (fn sandbox (with_sandbox_attached d sandbox)))
  = parentNode (with_sandbox_attached d sandbox) ->
  body (fst (fn sandbox (with_sandbox_attached d sandbox))) = body d ->
  parentNode (fst (withSandbox fn d)) = parentNode d /\
  snd (withSandbox fn d)
  = passed_on (snd (fn sandbox (with_sandbox_attached d sandbox))).
Proof.
  intros Hfresh Hsb Htree Hbody. rewrite (withSandbox_eq fn d sandbox Hsb).
  assert (parentNode (with_sandbox_attached d sandbox)
          = <[sandbox := Node (body d)]> (parentNode d) /\
          parentNode d !! sandbox = None) as [Hattached Hnew].
  { revert Hsb. unfold with_sandbox_attached, make_sandbox, clone_sandbox_section.
    destruct (sandboxTemplate d) as [[]|]; cbn; intros [= <-].
    - split; [apply insert_insert_eq|]. apply Hfresh. lia.
    - split; [done|]. by apply Hfresh. }
  rewrite Hbody, (removeChild_child (body d) sandbox).
  - cbn [fst snd parentNode set_parentNode]. split; [|done].
    by rewrite Htree, Hattached, delete_insert_eq, delete_id.
  - by rewrite Htree, Hattached, lookup_insert_eq.
Qed.

Lemma withSandbox_restores_tree_witness :
  parentNode (fst (withSandbox (fun _ d => (d, Returns VNull)) small_document))
  = parentNode small_document /\
  snd (withSandbox (fun _ d => (d, Returns VNull)) small_document) = Returns VNull.
Proof.
  apply (withSandbox_restores_tree (fun _ d => (d, Returns VNull)) small_document 3).
  - intros i Hi. cbn [nextId small_document] in Hi.
    cbn [parentNode small_document].
    rewrite !lookup_insert_ne by lia. apply lookup_singleton_ne. lia.
  - reflexivity.
  - reflexivity.
  - reflexivity.
Defined.

(** *** [test.ui] *)

Section Page.
Variable querySelector : Document -> string -> completion (option found) value.
Variable new_Error : string -> value.

Lemma make_sandbox_fresh (d : Document) (sandbox : nat) :
  snd (make_sandbox d) = Some sandbox ->
  sandbox < nextId (fst (make_sandbox d)) /\
  body (fst (make_sandbox d)) = body d /\
  nextId d <= nextId (fst (make_sandbox d)).
Proof.
  unfold make_sandbox, clone_sandbox_section.
  destruct (sandboxTemplate d) as [[]|]; cbn; intros [= <-]; lia.
Qed.

(** When the callback of [test.ui] raises before it calls [testFn], the
    sandbox is removed and the error is passed on. *)
Lemma testUI_body_setup_raises (selector : string) (testFn : callback)
    (d : Document) (sandbox : nat) (e : value) :
  snd (make_sandbox d) = Some sandbox ->
  makeTestDOM querySelector new_Error selector (with_sandbox_attached d sandbox)
  = (with_sandbox_attached d sandbox, Throws e) ->
  testUI_body querySelector new_Error selector testFn d
  = (set_parentNode (delete sandbox (parentNode (with_sandbox_attached d sandbox)))
       (with_sandbox_attached d sandbox),
     Throws (Raised e)).
Proof.
  intros Hsb Hmake. unfold testUI_body.
  rewrite (withSandbox_eq _ d sandbox Hsb).
  unfold testUI_callback at 1 2 3 4. rewrite Hmake. cbn [fst snd].
  rewrite (removeChild_child (body (with_sandbox_attached d sandbox)) sandbox).
  - done.
  - unfold with_sandbox_attached, appendChild.
    cbn [parentNode set_parentNode body]. apply lookup_insert_eq.
Qed.

(** A UI test whose template cannot be had fails before [testFn] is called:
    with the error ["test.ui(): Template not found: <selector>"] when the
    selector matches nothing, with ["test.ui(): Failed to clone template
    content: <message>"] when it matches an element that is no template, and
    with the selector engine's own error when it raises. In each case
    [testFn] has no part in the outcome and the sandbox is removed from the
    document again. *)
Theorem testUI_without_template (selector : string) (testFn : callback)
    (d : Document) (sandbox : nat) :
  snd (make_sandbox d) = Some sandbox ->
  (forall nodes,
     querySelector (with_sandbox_attached d sandbox) selector
     <> Returns (Some (TemplateElement nodes))) ->
  (querySelector (with_sandbox_attached d sandbox) selector = Returns None ->
   snd (testUI_body querySelector new_Error selector testFn d)
   = Throws (Raised (new_Error ("test.ui(): Template not found: " +:+ selector)))) /\
  (forall message,
     querySelector (with_sandbox_attached d sandbox) selector
     = Returns (Some (OtherElement message)) ->
     snd (testUI_body querySelector new_Error selector testFn d)
     = Throws (Raised (new_Error
                 ("test.ui(): Failed to clone template content: " +:+ message)))) /\
  (forall syntaxError,
     querySelector (with_sandbox_attached d sandbox) selector = Throws syntaxError ->
     snd (testUI_body querySelector new_Error selector testFn d)
     = Throws (Raised syntaxError)) /\
  (forall testFn' : callback,
     testUI_body querySelector new_Error selector testFn' d
     = testUI_body querySelector new_Error selector testFn d) /\
  ~ attached (fst (testUI_body querySelector new_Error selector testFn d)) (Node sandbox).
Proof.
  intros Hsb Hnone.
  assert (exists e,
            makeTestDOM querySelector new_Error selector (with_sandbox_attached d sandbox)
            = (with_sandbox_attached d sandbox, Throws e) /\
            (querySelector (with_sandbox_attached d sandbox) selector = Returns None ->
             e = new_Error ("test.ui(): Template not found: " +:+ selector)) /\
            (forall message,
               querySelector (with_sandbox_attached d sandbox) selector
               = Returns (Some (OtherElement message)) ->
               e = new_Error ("test.ui(): Failed to clone template content: "
                              +:+ message)) /\
            (forall syntaxError,
               querySelector (with_sandbox_attached d sandbox) selector
               = Throws syntaxError -> e = syntaxError)) as (e & Hmake & H1 & H2 & H3).
  { unfold makeTestDOM, findTestTemplate.
    destruct (querySelector (with_sandbox_attached d sandbox) selector)
      as [[[nodes|message]|]|syntaxError]; cbn [cloneTemplateContent].
    - by destruct (Hnone nodes).
    - eexists. split; [reflexivity|]. split; [done|]. split; [|done].
      by intros ? [= ->].
    - eexists. split; [reflexivity|]. by repeat split.
    - eexists. split; [reflexivity|]. split; [done|]. split; [done|].
      by intros ? [= ->]. }
  rewrite !(testUI_body_setup_raises selector testFn d sandbox e Hsb Hmake).
  cbn [fst snd].
  split; [by intros ->%H1|]. split; [by intros m ->%H2|].
  split; [by intros x ->%H3|]. split.
  - intros testFn'.
    by rewrite (testUI_body_setup_raises selector testFn' d sandbox e Hsb Hmake).
  - apply not_attached_orphan. cbn [parentNode set_parentNode].
    apply lookup_delete_eq.
Qed.

Lemma adopt_all_lookup (parent : node) (n first x : nat) (m : gmap nat node) :
  adopt_all parent first n m !! x
  = if bool_decide (first <= x < first + n) then Some parent else m !! x.
Proof.
  revert first. induction n as [|n IH]; intros first; cbn [adopt_all].
  - rewrite bool_decide_eq_false_2 by lia. done.
  - destruct (decide (x = first)) as [->|Hne].
    + rewrite lookup_insert_eq, bool_decide_eq_true_2 by lia. done.
    + rewrite lookup_insert_ne, IH by done.
      destruct (decide (first <= x < first + S n)).
      * rewrite !bool_decide_eq_true_2 by lia. done.
      * rewrite !bool_decide_eq_false_2 by lia. done.
Qed.

Lemma testUI_callback_template (selector : string) (testFn : callback)
    (d : Document) (sandbox nodes : nat) :
  querySelector (with_sandbox_attached d sandbox) selector
  = Returns (Some (TemplateElement nodes)) ->
  testUI_callback querySelector new_Error selector testFn sandbox
    (with_sandbox_attached d sandbox)
  = (fst (testFn sandbox (fixture_document new_Error d sandbox nodes)),
     match snd (testFn sandbox (fixture_document new_Error d sandbox nodes)) with
     | Returns _ => Returns VUndefined
     | Throws e => Throws e
     end).
Proof.
  intros Hq. unfold testUI_callback, makeTestDOM, findTestTemplate.
  rewrite Hq. unfold fixture_document. cbn [cloneTemplateContent fst].
  by destruct (testFn sandbox _).
Qed.

(** A UI test whose selector finds a template of [nodes] top-level nodes, in
    a document whose body is one of its nodes. [testFn] is called on a
    document in which the sandbox is a child of [document.body] and each
    copy of the template's nodes is a child of the sandbox. When [testFn]
    leaves the sandbox where it is, the test ends as [testFn] does, a
    returned value dropped, and nothing inside the sandbox, the fixture
    included, stays attached to the document. *)
Theorem testUI_fixture (selector : string) (testFn : callback) (d : Document)
    (sandbox nodes : nat) :
  snd (make_sandbox d) = Some sandbox ->
  body d < nextId d ->
  querySelector (with_sandbox_attached d sandbox) selector
  = Returns (Some (TemplateElement nodes)) ->
  parentNode (fst (testFn sandbox (fixture_document new_Error d sandbox nodes)))
    !! sandbox
  = Some (Node (body (fst (testFn sandbox
                             (fixture_document new_Error d sandbox nodes))))) ->
  parentNode (fixture_document new_Error d sandbox nodes) !! sandbox
  = Some (Node (body (fixture_document new_Error d sandbox nodes))) /\
  (forall i, i < nodes ->
     parentNode (fixture_document new_Error d sandbox nodes)
       !! (S (nextId (fst (make_sandbox d))) + i)
     = Some (Node sandbox)) /\
  snd (testUI_body querySelector new_Error selector testFn d)
  = awaited (snd (testFn sandbox (fixture_document new_Error d sandbox nodes))) /\
  (forall x,
     inside (fst (testFn sandbox (fixture_document new_Error d sandbox nodes)))
       sandbox x ->
     ~ attached (fst (testUI_body querySelector new_Error selector testFn d))
         (Node x)).
Proof.
  intros Hsb Hbody Hq Hleft.
  destruct (make_sandbox_fresh d sandbox Hsb) as (Hfresh & Hb & Hnext).
  split; [|split].
  - unfold fixture_document, appendFragment, with_sandbox_attached, appendChild.
    cbn [cloneTemplateContent fst parentNode set_parentNode body nextId].
    rewrite lookup_fmap, adopt_all_lookup, bool_decide_eq_false_2 by lia.
    rewrite lookup_insert_eq. cbn [fmap option_fmap option_map].
    rewrite bool_decide_eq_false_2 by lia. done.
  - intros i Hi.
    unfold fixture_document, appendFragment, with_sandbox_attached, appendChild.
    cbn [cloneTemplateContent fst parentNode set_parentNode body nextId].
    rewrite lookup_fmap, adopt_all_lookup, bool_decide_eq_true_2 by lia.
    cbn [fmap option_fmap option_map].
    rewrite bool_decide_eq_true_2 by done. done.
  - unfold testUI_body. rewrite (withSandbox_eq _ d sandbox Hsb).
    rewrite (testUI_callback_template selector testFn d sandbox nodes Hq).
    cbn [fst snd]. rewrite (removeChild_child _ _ _ Hleft). cbn [fst snd].
    split.
    + by destruct (snd (testFn sandbox (fixture_document new_Error d sandbox nodes))).
    + intros x Hin. destruct (inside_delete _ _ _ Hin) as [->|Hin'].
      * apply not_attached_orphan. cbn [parentNode set_parentNode].
        apply lookup_delete_eq.
      * apply (inside_detached _ sandbox); [|done].
        cbn [parentNode set_parentNode]. apply lookup_delete_eq.
Qed.

End Page.

Lemma testUI_without_template_witness :
  snd (testUI_body (fun _ _ => Returns None) VString "#missing"
         fill_and_raise small_document)
  = Throws (Raised (VString "test.ui(): Template not found: #missing")) /\
  ~ attached (fst (testUI_body (fun _ _ => Returns None) VString "#missing"
                     fill_and_raise small_document)) (Node 3).
Proof.
  destruct (testUI_without_template (fun _ _ => Returns None) VString "#missing"
              fill_and_raise small_document 3) as (Hres & _ & _ & _ & Hout).
  - reflexivity.
  - intros nodes. discriminate.
  - split; [by apply Hres|exact Hout].
Defined.

Lemma testUI_fixture_witness :
  parentNode (fixture_document VString small_document 3 2) !! 3 = Some (Node 1) /\
  parentNode (fixture_document VString small_document 3 2) !! 5 = Some (Node 3) /\
  parentNode (fixture_document VString small_document 3 2) !! 6 = Some (Node 3) /\
  snd (testUI_body (fun _ _ => Returns (Some (TemplateElement 2))) VString "#card"
         fill_and_raise small_document)
  = Throws (Raised (VString "boom")) /\
  ~ attached (fst (testUI_body (fun _ _ => Returns (Some (TemplateElement 2)))
                     VString "#card" fill_and_raise small_document)) (Node 5).
Proof.
  destruct (testUI_fixture (fun _ _ => Returns (Some (TemplateElement 2))) VString
              "#card" fill_and_raise small_document 3 2)
    as (Hsb & Hnodes & Hres & Hout).
  - reflexivity.
  - simpl. lia.
  - reflexivity.
  - vm_compute. reflexivity.
  - split; [exact Hsb|]. split; [apply (Hnodes 0); lia|].
    split; [apply (Hnodes 1); lia|]. split; [exact Hres|].
    apply Hout. apply inside_child. vm_compute. reflexivity.
Defined.

End UIFacts.

(* ===================================================================== *)
(** ** What [assert.deepEqual] accepts *)
(* ===================================================================== *)

Module AlikeFacts.
Import JS Assert AssertFacts.

(** *** Vocabulary *)

(** Two values are alike when they are strictly equal, or both are objects
    and, under every key that [Object.keys] lists for one of them, the
    values read from the two are alike; the read is the language's: an own
    property, enumerable or not, or else an inherited one, or else
    [undefined]. *)
Inductive alike (h : heap) : value -> value -> Prop :=
| alike_strict (a b : value) :
    strict_equal a b = true -> alike h a b
| alike_objects (a b : value) :
    isObject a = true -> isObject b = true ->
    (forall key, key ∈ Object_keys h a ++ Object_keys h b ->
                 alike h (get h a key) (get h b key)) ->
    alike h a b.

Lemma diff_keys_nil rec h a b path keys :
  diff_keys rec h a b path keys = Some [] <->
  forall key, key ∈ keys -> rec (get h a key) (get h b key) (path ++ [key]) = Some [].
Proof.
  induction keys as [|k keys IH]; simpl.
  - split; [by intros _ key ?%elem_of_nil|done].
  - split.
    + destruct (rec (get h a k) (get h b k) (path ++ [k])) as [d1|] eqn:E1; [|done].
      destruct (diff_keys rec h a b path keys) as [d2|] eqn:E2; [|done].
      intros [= [-> ->]%app_eq_nil] key [->|Hkey]%elem_of_cons; [done|].
      by apply IH.
    + intros Hall. rewrite (Hall k) by apply list_elem_of_here.
      assert (diff_keys rec h a b path keys = Some []) as ->; [|done].
      apply IH. intros key Hkey. apply Hall. by apply list_elem_of_further.
Qed.

Lemma diff_nil_alike (depth : nat) h a b path :
  diff depth h a b path = Some [] -> alike h a b.
Proof.
  revert a b path. induction depth as [|depth IH]; intros a b path; [done|].
  simpl. destruct (strict_equal a b) eqn:Heq; [intros _; by apply alike_strict|].
  destruct (negb (isObject a) || negb (isObject b)) eqn:Hobj; [done|].
  apply orb_false_iff in Hobj as [Ha%negb_false_iff Hb%negb_false_iff].
  rewrite diff_keys_nil. intros Hall.
  apply alike_objects; [done|done|].
  intros key Hkey%Set_of_nil_elem. by apply (IH _ _ (path ++ [key])), Hall.
Qed.

Lemma alike_diff_nil h a b :
  alike h a b -> exists depth, forall path, diff depth h a b path = Some [].
Proof.
  induction 1 as [a b Heq|a b Ha Hb _ IH].
  - exists 1. intros path. by apply diff_strict_equal.
  - assert (exists depth, forall key,
              key ∈ Object_keys h a ++ Object_keys h b ->
              forall path, diff depth h (get h a key) (get h b key) path = Some [])
      as [depth Hdepth].
    { induction (Object_keys h a ++ Object_keys h b) as [|k keys IHkeys].
      - exists 0. by intros key ?%elem_of_nil.
      - destruct (IH k) as [d1 Hd1]; [apply list_elem_of_here|].
        destruct IHkeys as [d2 Hd2].
        { intros key Hkey. apply IH. by apply list_elem_of_further. }
        exists (d1 `max` d2). intros key [->|Hkey]%elem_of_cons path.
        + apply (diff_depth_mono d1); [lia|apply Hd1].
        + apply (diff_depth_mono d2); [lia|by apply Hd2]. }
    exists (S depth). intros path. simpl.
    destruct (strict_equal a b); [done|]. rewrite Ha, Hb. simpl.
    apply diff_keys_nil. intros key Hkey.
    apply (proj1 (Set_of_nil_elem _ _)) in Hkey. by apply Hdepth.
Qed.

(** [{toString: undefined}] is not alike [{}], which inherits a method of
    that name, and [assert.deepEqual] raises on them; the array [[1]] is
    alike [{0: 1, length: 1}], the [length] of both being read, and
    [assert.deepEqual] returns. *)
Lemma alike_reads_inherited :
  (alike inherited_member_heap (VObject 3) (VObject 4) -> False) /\
  (exists err, deepEqual 2 inherited_member_heap (VObject 3) (VObject 4)
               = Some (Throws err)) /\
  alike array_heap (VObject 1) (VObject 2) /\
  deepEqual 2 array_heap (VObject 1) (VObject 2) = Some (Returns tt).
Proof.
  split; [|split; [by eexists|split]].
  - intros [depth Hdepth]%alike_diff_nil.
    assert (diff (depth `max` 2) inherited_member_heap (VObject 3) (VObject 4) []
            = Some []) as H1
      by (apply (diff_depth_mono depth); [lia|apply Hdepth]).
    assert (diff (depth `max` 2) inherited_member_heap (VObject 3) (VObject 4) []
            = Some [ {| path := ["toString"]; actual := VUndefined;
                        expected := VFunction 109 |} ]) as H2
      by (apply (diff_depth_mono 2); [lia|by vm_compute]).
    rewrite H1 in H2. discriminate H2.
  - apply (diff_nil_alike 2 _ _ _ []). by vm_compute.
  - by vm_compute.
Qed.

(** [assert.deepEqual] returns, at some depth of the traversal, exactly for
    operands that are alike. *)
Theorem deepEqual_returns_iff_alike (h : heap) (a b : value) :
  (exists depth, deepEqual depth h a b = Some (Returns tt)) <-> alike h a b.
Proof.
  split.
  - intros [depth Hret]. unfold deepEqual in Hret.
    destruct (diff depth h a b []) as [[|d ds]|] eqn:E; [|done..].
    by apply (diff_nil_alike depth h a b []).
  - intros [depth Hdepth]%alike_diff_nil. exists depth.
    unfold deepEqual. by rewrite Hdepth.
Qed.

End AlikeFacts.
